(** * digital_constellation_receiver_cb: the decision-directed carrier loop

    A shallow embedding of gr-digital/lib/digital_constellation_receiver_cb.cc.

    The block's [float] members are read as real numbers: every arithmetic
    operation and comparison of the source is the exact one on [R], and
    [M_PI] is the number pi.  Rounding, infinities and NaN are outside this
    model.  The [int] counters of [general_work] are integers of [Z]; the
    loop counter never leaves the range between 0 and [noutput_items], so it
    cannot overflow.

    Where the values a float can take decide a property, namely which end
    of the phase interval can be stored, the phase wrap is read a second
    time on float values, with its roundings.

    Methods that may throw are computations of the monad [M], which threads
    the object's members and carries a C++ exception when one is thrown. *)

From Stdlib Require Import Reals Lra Lia ZArith List String Bool Psatz.
From Equations Require Import Equations.
Import ListNotations.

Open Scope R_scope.

(** ** Constants and complex samples *)

Definition M_PI : R := PI.

(** [#define M_TWOPI (2*M_PI)] *)
Definition M_TWOPI : R := 2 * M_PI.

(** [gr_complex] is [std::complex<float>]. *)
Record gr_complex : Type := mk_complex { real : R; imag : R }.

(** [operator*] of [std::complex]. *)
Definition Cmult (a b : gr_complex) : gr_complex :=
  mk_complex (real a * real b - imag a * imag b)
             (real a * imag b + imag a * real b).

(** Modelled from the spec: [gr_expj] is declared in gr_expj.h, which is not
    part of the sources at hand.  The spec gives the factor that the loop
    applies to a sample as exp(-j * phase), which "conjugate-rotates" the
    sample "by current phase estimate"; the NCO value is taken to be that
    factor, real part [cos phase] and imaginary part [- sin phase]. *)
Definition gr_expj (phase : R) : gr_complex :=
  mk_complex (cos phase) (- sin phase).

(** Modelled from the spec: [gr_branchless_clip] is declared in gr_math.h,
    which is not part of the sources at hand.  The spec calls it a
    "branchless range clip on magnitude, preserving sign" that clamps
    "symmetrically to within [-max_freq, max_freq]"; the branch-free
    formula with that behaviour is half the difference of the distances of
    [x] to [-clip] and to [clip]. *)
Definition gr_branchless_clip (x clip : R) : R :=
  let x1 := Rabs (x + clip) in
  let x2 := Rabs (x - clip) in
  let x1 := x1 - x2 in
  / 2 * x1.

(** ** The constellation object *)

(** Only the two members the receiver calls.  [decision_maker_pe] returns
    the decided symbol ([unsigned int]) and the phase error it writes
    through its second argument. *)
Record digital_constellation : Type := mk_constellation {
  dimensionality : Z;
  decision_maker_pe : gr_complex -> Z * R
}.

(** ** The receiver's members *)

Record receiver : Type := mk_receiver {
  d_freq : R;
  d_max_freq : R;
  d_min_freq : R;
  d_phase : R;
  d_constellation : digital_constellation;
  d_current_const_point : Z;
  d_damping : R;
  d_loop_bw : R;
  d_alpha : R;
  d_beta : R
}.

Definition with_freq (v : R) (s : receiver) : receiver :=
  mk_receiver v (d_max_freq s) (d_min_freq s) (d_phase s) (d_constellation s)
    (d_current_const_point s) (d_damping s) (d_loop_bw s) (d_alpha s) (d_beta s).

Definition with_phase (v : R) (s : receiver) : receiver :=
  mk_receiver (d_freq s) (d_max_freq s) (d_min_freq s) v (d_constellation s)
    (d_current_const_point s) (d_damping s) (d_loop_bw s) (d_alpha s) (d_beta s).

Definition with_damping (v : R) (s : receiver) : receiver :=
  mk_receiver (d_freq s) (d_max_freq s) (d_min_freq s) (d_phase s) (d_constellation s)
    (d_current_const_point s) v (d_loop_bw s) (d_alpha s) (d_beta s).

Definition with_loop_bw (v : R) (s : receiver) : receiver :=
  mk_receiver (d_freq s) (d_max_freq s) (d_min_freq s) (d_phase s) (d_constellation s)
    (d_current_const_point s) (d_damping s) v (d_alpha s) (d_beta s).

Definition with_alpha (v : R) (s : receiver) : receiver :=
  mk_receiver (d_freq s) (d_max_freq s) (d_min_freq s) (d_phase s) (d_constellation s)
    (d_current_const_point s) (d_damping s) (d_loop_bw s) v (d_beta s).

Definition with_beta (v : R) (s : receiver) : receiver :=
  mk_receiver (d_freq s) (d_max_freq s) (d_min_freq s) (d_phase s) (d_constellation s)
    (d_current_const_point s) (d_damping s) (d_loop_bw s) (d_alpha s) v.

(** ** Exceptions and the method monad *)

Inductive exception : Type :=
| runtime_error (what : string)
| out_of_range (what : string).

Inductive outcome (A : Type) : Type :=
| Returned (a : A)
| Thrown (e : exception).
Arguments Returned {A} a.
Arguments Thrown {A} e.

(** A method run on the members [s] ends with a value or an exception, and
    with the members as they are at that point. *)
Definition M (A : Type) : Type := receiver -> outcome A * receiver.

Definition ret {A : Type} (a : A) : M A := fun s => (Returned a, s).

Definition bind {A B : Type} (m : M A) (k : A -> M B) : M B :=
  fun s => match m s with
           | (Returned a, s') => k a s'
           | (Thrown e, s') => (Thrown e, s')
           end.

Definition throw {A : Type} (e : exception) : M A := fun s => (Thrown e, s).
Definition get : M receiver := fun s => (Returned s, s).
Definition modify (f : receiver -> receiver) : M unit := fun s => (Returned tt, f s).

Definition result {A : Type} (m : M A) (s : receiver) : outcome A := fst (m s).
Definition members {A : Type} (m : M A) (s : receiver) : receiver := snd (m s).

Definition throws {A : Type} (m : M A) (s : receiver) : Prop :=
  exists e, result m s = Thrown e.

Declare Scope method_scope.
Delimit Scope method_scope with method.
Notation "x <- m ;; k" := (bind m (fun x => k))
  (at level 61, m at next level, right associativity) : method_scope.
Notation "m ;; k" := (bind m (fun _ => k))
  (at level 61, right associativity) : method_scope.
Notation "'when' c 'then_throw' e" := (if c then throw e else ret tt)
  (at level 60, c at level 9, e at level 9) : method_scope.
Open Scope method_scope.

(** The comparisons of the source, as booleans. *)
Definition Rltb (x y : R) : bool := if Rlt_dec x y then true else false.
Definition Rgtb (x y : R) : bool := if Rgt_dec x y then true else false.

(** ** Set functions *)

(** [update_gains] *)
Definition update_gains : M unit :=
  s <- get ;;
  let denom := 1 + 2 * d_damping s * d_loop_bw s + d_loop_bw s * d_loop_bw s in
  modify (with_alpha ((4 * d_damping s * d_loop_bw s) / denom)) ;;
  modify (with_beta ((4 * d_loop_bw s * d_loop_bw s) / denom)).

(** [set_loop_bandwidth] *)
Definition set_loop_bandwidth (bw : R) : M unit :=
  when (Rltb bw 0) then_throw
    (out_of_range "digital_constellation_receiver_cb: invalid bandwidth. Must be >= 0.") ;;
  modify (with_loop_bw bw) ;;
  update_gains.

(** [set_damping_factor] *)
Definition set_damping_factor (df : R) : M unit :=
  when (Rltb df 0 || Rgtb df 1) then_throw
    (out_of_range "digital_constellation_receiver_cb: invalid damping factor. Must be in [0,1].") ;;
  modify (with_damping df) ;;
  update_gains.

(** [set_alpha] *)
Definition set_alpha (alpha : R) : M unit :=
  when (Rltb alpha 0 || Rgtb alpha 1) then_throw
    (out_of_range "digital_constellation_receiver_cb: invalid alpha. Must be in [0,1].") ;;
  modify (with_alpha alpha).

(** [set_beta] *)
Definition set_beta (beta : R) : M unit :=
  when (Rltb beta 0 || Rgtb beta 1) then_throw
    (out_of_range "digital_constellation_receiver_cb: invalid beta. Must be in [0,1].") ;;
  modify (with_beta beta).

(** [set_frequency] *)
Definition set_frequency (freq : R) : M unit :=
  s <- get ;;
  if Rgtb freq (d_max_freq s) then modify (with_freq (d_min_freq s))
  else if Rltb freq (d_min_freq s) then modify (with_freq (d_max_freq s))
  else modify (with_freq freq).

(** ** The two wrap-around loops

    [while(d_phase > M_TWOPI) d_phase -= M_TWOPI;] and
    [while(d_phase < -M_TWOPI) d_phase += M_TWOPI;], which [set_phase] and
    [phase_error_tracking] both run.  Each iteration lowers the number of
    whole turns left in the phase, which is the measure of the recursion. *)

Lemma M_TWOPI_pos : 0 < M_TWOPI.
Proof. unfold M_TWOPI, M_PI. pose proof PI_RGT_0. lra. Qed.

Lemma turns_decrease (x : R) :
  1 < x -> (Z.to_nat (up (x - 1)) < Z.to_nat (up x))%nat.
Proof.
  intros Hx.
  destruct (archimed x) as [Hup Hlow].
  assert (Hshift : (up x - 1)%Z = up (x - 1)).
  { apply tech_up; rewrite minus_IZR; lra. }
  assert (1 < up x)%Z by (apply lt_IZR; lra).
  rewrite <- Hshift. lia.
Qed.

Equations? while_phase_gt (s : receiver) : receiver
  by wf (Z.to_nat (up (d_phase s / M_TWOPI))) lt :=
  while_phase_gt s with Rgt_dec (d_phase s) M_TWOPI := {
    | left _ := while_phase_gt (with_phase (d_phase s - M_TWOPI) s);
    | right _ := s }.
Proof.
  pose proof M_TWOPI_pos as HT.
  replace ((d_phase s - M_TWOPI) / M_TWOPI) with (d_phase s / M_TWOPI - 1)
    by (field; lra).
  apply turns_decrease.
  apply Rmult_lt_reg_r with M_TWOPI; [exact HT|].
  unfold Rdiv. rewrite Rmult_assoc, Rinv_l by lra. lra.
Qed.

Equations? while_phase_lt (s : receiver) : receiver
  by wf (Z.to_nat (up (- d_phase s / M_TWOPI))) lt :=
  while_phase_lt s with Rlt_dec (d_phase s) (- M_TWOPI) := {
    | left _ := while_phase_lt (with_phase (d_phase s + M_TWOPI) s);
    | right _ := s }.
Proof.
  pose proof M_TWOPI_pos as HT.
  replace (- (d_phase s + M_TWOPI) / M_TWOPI) with (- d_phase s / M_TWOPI - 1)
    by (field; lra).
  apply turns_decrease.
  apply Rmult_lt_reg_r with M_TWOPI; [exact HT|].
  unfold Rdiv. rewrite Rmult_assoc, Rinv_l by lra. lra.
Qed.

(** [set_phase] *)
Definition set_phase (phase : R) : M unit :=
  modify (with_phase phase) ;;
  modify while_phase_gt ;;
  modify while_phase_lt.

(** ** Get functions *)

Definition get_loop_bandwidth : M R := s <- get ;; ret (d_loop_bw s).
Definition get_damping_factor : M R := s <- get ;; ret (d_damping s).
Definition get_alpha : M R := s <- get ;; ret (d_alpha s).
Definition get_beta : M R := s <- get ;; ret (d_beta s).
Definition get_frequency : M R := s <- get ;; ret (d_freq s).
Definition get_phase : M R := s <- get ;; ret (d_phase s).

(** ** The loop *)

(** [phase_error_tracking] *)
Definition phase_error_tracking (phase_error : R) : M unit :=
  s <- get ;; modify (with_freq (d_freq s + d_beta s * phase_error)) ;;
  s <- get ;; modify (with_phase (d_phase s + (d_freq s + d_alpha s * phase_error))) ;;
  modify while_phase_gt ;;
  modify while_phase_lt ;;
  s <- get ;; modify (with_freq (gr_branchless_clip (d_freq s) (d_max_freq s))).

(** ** The stream driver *)

(** The output side of one call: how many output streams are connected
    ([output_items.size()]) and the buffers [output_items[0..3]], each read
    as a map from index to item.  The last three are looked at only when
    four streams are connected. *)
Record output_items : Type := mk_outputs {
  size : nat;
  out : Z -> Z;
  out_err : Z -> R;
  out_phase : Z -> R;
  out_freq : Z -> R
}.

(** [buf[i] = v] *)
Definition store {A : Type} (buf : Z -> A) (i : Z) (v : A) : Z -> A :=
  fun k => if Z.eqb k i then v else buf k.

(** Modelled from the spec: [consume_each] is a member of gr_block, which is
    not part of the sources at hand; the driver "reports n as both samples
    consumed and samples produced", so the count it is called with is what
    the scheduler takes as consumed.  What the scheduler gets back from one
    call is then the value [general_work] returns, the count passed to
    [consume_each], and the output buffers. *)
Record work_done : Type := mk_work_done {
  returned : Z;
  consumed_each : Z;
  written : output_items
}.

(** The sample handed to [decision_maker_pe] in the loop body:
    [nco = gr_expj(d_phase); sample = nco*sample]. *)
Definition downconverted (s : receiver) (sample : gr_complex) : gr_complex :=
  let nco := gr_expj (d_phase s) in
  Cmult nco sample.

(** The body of the [while] loop of [general_work], at index [i].  The
    symbol is stored into an [unsigned char] buffer, hence modulo 256. *)
Definition loop_body (in_ : Z -> gr_complex) (i : Z)
  (s : receiver) (o : output_items) : receiver * output_items :=
  let sample := in_ i in
  let sample := downconverted s sample in
  let sym_value := fst (decision_maker_pe (d_constellation s) sample) in
  let phase_error := snd (decision_maker_pe (d_constellation s) sample) in
  let s := members (phase_error_tracking phase_error) s in
  let o := mk_outputs (size o) (store (out o) i (sym_value mod 256)%Z)
             (out_err o) (out_phase o) (out_freq o) in
  let o := if Nat.eqb (size o) 4
           then mk_outputs (size o) (out o)
                  (store (out_err o) i phase_error)
                  (store (out_phase o) i (d_phase s))
                  (store (out_freq o) i (d_freq s))
           else o in
  (s, o).

(** [(i < noutput_items) && (i < ninput_items[0])] *)
Definition loop_test (i noutput_items ninput_items0 : Z) :
  {(i < noutput_items)%Z /\ (i < ninput_items0)%Z} +
  {~ ((i < noutput_items)%Z /\ (i < ninput_items0)%Z)}.
Proof.
  destruct (Z_lt_dec i noutput_items) as [H1|H1].
  - destruct (Z_lt_dec i ninput_items0) as [H2|H2].
    + left. split; assumption.
    + right. intros [_ H]. exact (H2 H).
  - right. intros [H _]. exact (H1 H).
Defined.

(** The [while] loop of [general_work], from the counter value [i]. *)
Equations? general_work_loop (noutput_items ninput_items0 : Z)
  (in_ : Z -> gr_complex) (i : Z) (s : receiver) (o : output_items) :
  Z * (receiver * output_items)
  by wf (Z.to_nat (noutput_items - i)) lt :=
  general_work_loop noutput_items ninput_items0 in_ i s o
    with loop_test i noutput_items ninput_items0 := {
    | left _ := general_work_loop noutput_items ninput_items0 in_ (i + 1)
                  (fst (loop_body in_ i s o)) (snd (loop_body in_ i s o));
    | right _ := (i, (s, o)) }.
Proof. lia. Qed.

(** [general_work]: [ninput_items] is the vector of available input counts,
    of which only entry 0 is read; [in_] is [input_items[0]]. *)
Definition general_work (noutput_items : Z) (ninput_items : list Z)
  (in_ : Z -> gr_complex) (o : output_items) : M work_done :=
  fun s =>
    let i := 0%Z in
    let r := general_work_loop noutput_items (nth 0 ninput_items 0%Z) in_ i s o in
    let i := fst r in
    (Returned (mk_work_done i i (snd (snd r))), fst (snd r)).

(** ** Construction *)

(** The constructor, run on the storage [raw] of the new object: the member
    initialisers, then the body.  [d_damping], [d_loop_bw], [d_alpha] and
    [d_beta] have no initialiser and keep what the storage held until the
    body assigns them. *)
Definition digital_constellation_receiver_cb (constellation : digital_constellation)
  (loop_bw fmin fmax : R) : M unit :=
  modify (fun raw => mk_receiver 0 fmax fmin 0 constellation 0
                       (d_damping raw) (d_loop_bw raw) (d_alpha raw) (d_beta raw)) ;;
  s <- get ;;
  when (negb (Z.eqb (dimensionality (d_constellation s)) 1)) then_throw
    (runtime_error "This receiver only works with constellations of dimension 1.") ;;
  modify (with_damping (sqrt 2 / 2)) ;;
  set_loop_bandwidth loop_bw.

(** [digital_make_constellation_receiver_cb]: [new] runs the constructor;
    the caller gets the object only when the constructor returns. *)
Definition digital_make_constellation_receiver_cb (raw : receiver)
  (constell : digital_constellation) (loop_bw fmin fmax : R) : outcome receiver :=
  match digital_constellation_receiver_cb constell loop_bw fmin fmax raw with
  | (Returned _, s) => Returned s
  | (Thrown e, _) => Thrown e
  end.

(** ** Reference objects

    A constellation of dimension 1 that decides by the sign of the imaginary
    part and reports no phase error, and a receiver on it with the search
    range from -1 to 1 and all gains at zero.  The examples below run the
    methods on them. *)

Definition sign_constellation : digital_constellation :=
  mk_constellation 1
    (fun sample => ((if Rltb 0 (imag sample) then 1 else 0)%Z, 0)).

Definition idle_receiver : receiver :=
  mk_receiver 0 1 (-1) 0 sign_constellation 0 (sqrt 2 / 2) 0 0 0.

(** ** Vocabulary of the properties *)

(** [p] is [x] brought back by whole turns: what the two loops make of a
    phase [x]. *)
Definition wraps_to (x p : R) : Prop :=
  - M_TWOPI <= p <= M_TWOPI /\
  (exists k : Z, p = x + IZR k * M_TWOPI) /\
  (- M_TWOPI <= x <= M_TWOPI -> p = x) /\
  (x > M_TWOPI -> 0 < p) /\
  (x < - M_TWOPI -> p < 0).

Definition with_min_freq (v : R) (s : receiver) : receiver :=
  mk_receiver (d_freq s) (d_max_freq s) v (d_phase s) (d_constellation s)
    (d_current_const_point s) (d_damping s) (d_loop_bw s) (d_alpha s) (d_beta s).

(** [n] runs of the loop body, the first at index [i]. *)
Fixpoint iterations (in_ : Z -> gr_complex) (n : nat) (i : Z)
  (s : receiver) (o : output_items) : receiver * output_items :=
  match n with
  | O => (s, o)
  | S n' => iterations in_ n' (i + 1)
              (fst (loop_body in_ i s o)) (snd (loop_body in_ i s o))
  end.

(** The de-rotation as the specification words it:
    [derotated = input[i] * exp(-j * phase)]. *)
Definition spec_derotated (sample : gr_complex) (phase : R) : gr_complex :=
  Cmult sample (mk_complex (cos (- phase)) (sin (- phase))).

(** A buffer seen from [a] items further on (the pointer [buf + a]), and
    the output side of a call whose buffers all start [a] items further
    on. *)
Definition advance {A : Type} (buf : Z -> A) (a : Z) : Z -> A :=
  fun k => buf (k + a)%Z.

Definition advance_outputs (o : output_items) (a : Z) : output_items :=
  mk_outputs (size o) (advance (out o) a) (advance (out_err o) a)
    (advance (out_phase o) a) (advance (out_freq o) a).

(** Two output sides that hold the same items. *)
Definition same_items (o o' : output_items) : Prop :=
  size o = size o' /\
  forall k : Z,
    out o k = out o' k /\ out_err o k = out_err o' k /\
    out_phase o k = out_phase o' k /\ out_freq o k = out_freq o' k.

(** [s'] is [s] with the phase moved by whole turns. *)
Definition turned (s s' : receiver) : Prop :=
  s' = with_phase (d_phase s') s /\
  exists k : Z, d_phase s' = d_phase s + IZR k * M_TWOPI.

(** ** The phase wrap on float values

    [d_phase] is a [float] and [M_TWOPI] a [double].  Whether an end of
    the phase interval can be stored depends on which values a float
    takes, so the two wrap-around loops and the sum that feeds them are
    read once more here, with the rounding of every assignment kept. *)

(** The values of a [float] (IEEE binary32): a significand of at most 24
    bits times a power of two between 2^-149 and 2^104. *)
Definition binary32 (x : R) : Prop :=
  exists k e : Z,
    (Z.abs k < 2 ^ 24)%Z /\ (-149 <= e <= 104)%Z /\ x = IZR k * powerRZ 2 e.

(** [M_TWOPI], twice the [double] nearest to pi: 0x401921FB54442D18. *)
Definition M_TWOPI_double : R := 7074237752028440 * powerRZ 2 (-50).

(** [r] may be what a [float] holds after an assignment whose exact
    result is [x]: a float on the same side of zero as [x], and within 4
    of [x] when [x] is at most 2^26 in magnitude (floats are no more than
    4 apart there, also after a first rounding to [double]).  Nothing is
    said of the error for larger [x]; a result too large for any float is
    outside this reading, and a call in which one arises does not
    return. *)
Definition stored_for (x r : R) : Prop :=
  binary32 r /\
  (0 <= x -> 0 <= r) /\
  (x <= 0 -> r <= 0) /\
  (Rabs x <= 2 ^ 26 -> Rabs (r - x) <= 4).

(** [while(d_phase > M_TWOPI) d_phase -= M_TWOPI;] from the phase [p] to
    the phase at the exit. *)
Inductive while_phase_gt_float : R -> R -> Prop :=
| gt_float_exit (p : R) :
    ~ p > M_TWOPI_double -> while_phase_gt_float p p
| gt_float_iter (p r q : R) :
    p > M_TWOPI_double ->
    stored_for (p - M_TWOPI_double) r ->
    while_phase_gt_float r q ->
    while_phase_gt_float p q.

(** [while(d_phase < -M_TWOPI) d_phase += M_TWOPI;] *)
Inductive while_phase_lt_float : R -> R -> Prop :=
| lt_float_exit (p : R) :
    ~ p < - M_TWOPI_double -> while_phase_lt_float p p
| lt_float_iter (p r q : R) :
    p < - M_TWOPI_double ->
    stored_for (p + M_TWOPI_double) r ->
    while_phase_lt_float r q ->
    while_phase_lt_float p q.

(** Every run of the first loop from [p] comes to its exit, whatever the
    roundings on the way. *)
Inductive while_phase_gt_ends : R -> Prop :=
| gt_ends_exit (p : R) :
    ~ p > M_TWOPI_double -> while_phase_gt_ends p
| gt_ends_iter (p : R) :
    p > M_TWOPI_double ->
    (forall r : R, stored_for (p - M_TWOPI_double) r -> while_phase_gt_ends r) ->
    while_phase_gt_ends p.

Inductive while_phase_lt_ends : R -> Prop :=
| lt_ends_exit (p : R) :
    ~ p < - M_TWOPI_double -> while_phase_lt_ends p
| lt_ends_iter (p : R) :
    p < - M_TWOPI_double ->
    (forall r : R, stored_for (p + M_TWOPI_double) r -> while_phase_lt_ends r) ->
    while_phase_lt_ends p.

(** The two loops in a row, and that every run of them ends. *)
Definition wrap_float (p q : R) : Prop :=
  exists p1 : R, while_phase_gt_float p p1 /\ while_phase_lt_float p1 q.

Definition wrap_float_ends (p : R) : Prop :=
  while_phase_gt_ends p /\
  forall p1 : R, while_phase_gt_float p p1 -> while_phase_lt_ends p1.

(** [set_phase] on float values: a call with argument [phase] on the
    members [s] may return with the members [s']. *)
Definition set_phase_float (phase : R) (s s' : receiver) : Prop :=
  exists q : R, wrap_float phase q /\ s' = with_phase q s.

(** The first two statements of [phase_error_tracking] on float values:
    [f1] is the frequency after [d_freq += d_beta*phase_error], [p0] the
    phase after [d_phase += d_freq + d_alpha*phase_error], each product
    and each sum rounded. *)
Definition tracking_sum_float (phase_error : R) (s : receiver) (f1 p0 : R) : Prop :=
  exists t1 t2 t3 : R,
    stored_for (d_beta s * phase_error) t1 /\
    stored_for (d_freq s + t1) f1 /\
    stored_for (d_alpha s * phase_error) t2 /\
    stored_for (f1 + t2) t3 /\
    stored_for (d_phase s + t3) p0.

(** [phase_error_tracking] on float values.  The frequency that the clip
    of gr_math.h leaves is some float [f2]: its roundings are not
    followed, since the phase does not depend on them. *)
Definition phase_error_tracking_float (phase_error : R) (s s' : receiver) : Prop :=
  exists f1 p0 q f2 : R,
    tracking_sum_float phase_error s f1 p0 /\
    wrap_float p0 q /\
    binary32 f2 /\
    s' = with_freq f2 (with_phase q s).

(** * Properties *)

(** ** Running methods *)

Ltac run_method :=
  unfold members, result, throws, bind, ret, throw, get, modify in *; simpl in *.

Lemma Rltb_true (x y : R) : Rltb x y = true <-> x < y.
Proof. unfold Rltb. destruct (Rlt_dec x y); split; intros; try lra; discriminate. Qed.

Lemma Rltb_false (x y : R) : Rltb x y = false <-> y <= x.
Proof. unfold Rltb. destruct (Rlt_dec x y); split; intros; try lra; try discriminate; reflexivity. Qed.

Lemma Rgtb_true (x y : R) : Rgtb x y = true <-> x > y.
Proof. unfold Rgtb. destruct (Rgt_dec x y); split; intros; try lra; discriminate. Qed.

Lemma Rgtb_false (x y : R) : Rgtb x y = false <-> x <= y.
Proof. unfold Rgtb. destruct (Rgt_dec x y); split; intros; try lra; try discriminate; reflexivity. Qed.

Lemma with_phase_twice (v w : R) (s : receiver) :
  with_phase v (with_phase w s) = with_phase v s.
Proof. reflexivity. Qed.

Lemma with_phase_same (s : receiver) : with_phase (d_phase s) s = s.
Proof. destruct s; reflexivity. Qed.

(** ** The wrap-around loops *)

(** Each loop touches [d_phase] only. *)
Lemma while_phase_gt_frame (s : receiver) :
  while_phase_gt s = with_phase (d_phase (while_phase_gt s)) s.
Proof.
  funelim (while_phase_gt s).
  - rewrite H at 1. apply with_phase_twice.
  - symmetry. apply with_phase_same.
Qed.

Lemma while_phase_lt_frame (s : receiver) :
  while_phase_lt s = with_phase (d_phase (while_phase_lt s)) s.
Proof.
  funelim (while_phase_lt s).
  - rewrite H at 1. apply with_phase_twice.
  - symmetry. apply with_phase_same.
Qed.

(** The first loop leaves a phase of at most a full turn; it takes whole
    turns off, stops above zero when it ran, and does nothing otherwise. *)
Lemma while_phase_gt_phase (s : receiver) :
  d_phase (while_phase_gt s) <= M_TWOPI /\
  (d_phase s <= M_TWOPI -> d_phase (while_phase_gt s) = d_phase s) /\
  (d_phase s > M_TWOPI -> 0 < d_phase (while_phase_gt s)) /\
  exists k : Z, d_phase (while_phase_gt s) = d_phase s + IZR k * M_TWOPI.
Proof.
  funelim (while_phase_gt s); pose proof M_TWOPI_pos as HT.
  - destruct H as (Hle & Hsame & Hpos & k & Hk). simpl in *.
    repeat split.
    + exact Hle.
    + intros; lra.
    + intros _. destruct (Rle_or_lt (d_phase s - M_TWOPI) M_TWOPI) as [Hin|Hout].
      * rewrite Hsame by exact Hin. lra.
      * apply Hpos. lra.
    + exists (k - 1)%Z. rewrite Hk, minus_IZR. lra.
  - repeat split.
    + lra.
    + intros; lra.
    + exists 0%Z. lra.
Qed.

Lemma while_phase_lt_phase (s : receiver) :
  - M_TWOPI <= d_phase (while_phase_lt s) /\
  (- M_TWOPI <= d_phase s -> d_phase (while_phase_lt s) = d_phase s) /\
  (d_phase s < - M_TWOPI -> d_phase (while_phase_lt s) < 0) /\
  exists k : Z, d_phase (while_phase_lt s) = d_phase s + IZR k * M_TWOPI.
Proof.
  funelim (while_phase_lt s); pose proof M_TWOPI_pos as HT.
  - destruct H as (Hle & Hsame & Hneg & k & Hk). simpl in *.
    repeat split.
    + exact Hle.
    + intros; lra.
    + intros _. destruct (Rle_or_lt (- M_TWOPI) (d_phase s + M_TWOPI)) as [Hin|Hout].
      * rewrite Hsame by exact Hin. lra.
      * apply Hneg. lra.
    + exists (k + 1)%Z. rewrite Hk, plus_IZR. lra.
  - repeat split.
    + lra.
    + intros; lra.
    + exists 0%Z. lra.
Qed.

Lemma wrap_loops (s : receiver) :
  wraps_to (d_phase s) (d_phase (while_phase_lt (while_phase_gt s))) /\
  while_phase_lt (while_phase_gt s) =
    with_phase (d_phase (while_phase_lt (while_phase_gt s))) s.
Proof.
  pose proof M_TWOPI_pos as HT.
  destruct (while_phase_gt_phase s) as (Hle & Hsame & Hpos & k1 & Hk1).
  destruct (while_phase_lt_phase (while_phase_gt s)) as (Hge & Hsame' & Hneg & k2 & Hk2).
  split.
  - unfold wraps_to. repeat split.
    + exact Hge.
    + destruct (Rle_or_lt (- M_TWOPI) (d_phase (while_phase_gt s))) as [Hin|Hout].
      * rewrite Hsame' by exact Hin. exact Hle.
      * specialize (Hneg Hout). lra.
    + exists (k1 + k2)%Z. rewrite Hk2, Hk1, plus_IZR. lra.
    + intros [Hlo Hhi]. rewrite Hsame'; rewrite Hsame; lra.
    + intros Hx. specialize (Hpos Hx). rewrite Hsame' by lra. exact Hpos.
    + intros Hx. apply Hneg. rewrite Hsame by lra. exact Hx.
  - rewrite while_phase_lt_frame at 1.
    rewrite (while_phase_gt_frame s) at 2.
    apply with_phase_twice.
Qed.

(** ** Phase wrap-around *)

Lemma set_phase_wraps (p : R) (s : receiver) :
  result (set_phase p) s = Returned tt /\
  wraps_to p (d_phase (members (set_phase p) s)) /\
  members (set_phase p) s = with_phase (d_phase (members (set_phase p) s)) s.
Proof.
  unfold set_phase. run_method.
  destruct (wrap_loops (with_phase p s)) as [Hw Hf].
  repeat split; try apply Hw.
  rewrite Hf at 1. reflexivity.
Qed.

(** ** The clip of gr_math.h *)

Lemma gr_branchless_clip_cases (x clip : R) :
  0 <= clip ->
  (x > clip -> gr_branchless_clip x clip = clip) /\
  (x < - clip -> gr_branchless_clip x clip = - clip) /\
  (- clip <= x <= clip -> gr_branchless_clip x clip = x).
Proof.
  intros Hc. unfold gr_branchless_clip. cbv zeta.
  repeat split; intros Hx;
    unfold Rabs; destruct (Rcase_abs (x + clip)); destruct (Rcase_abs (x - clip)); lra.
Qed.

Lemma gr_branchless_clip_bound (x clip : R) :
  0 <= clip -> Rabs (gr_branchless_clip x clip) <= clip.
Proof.
  intros Hc. unfold gr_branchless_clip. cbv zeta.
  unfold Rabs.
  destruct (Rcase_abs (x + clip)); destruct (Rcase_abs (x - clip));
    match goal with |- context [Rcase_abs ?e] => destruct (Rcase_abs e) end; lra.
Qed.

(** ** One tracking update *)

Lemma phase_error_tracking_run (e : R) (s : receiver) :
  phase_error_tracking e s =
  (Returned tt,
   with_freq (gr_branchless_clip (d_freq s + d_beta s * e) (d_max_freq s))
     (while_phase_lt (while_phase_gt
        (with_phase (d_phase s + (d_freq s + d_beta s * e + d_alpha s * e))
           (with_freq (d_freq s + d_beta s * e) s))))).
Proof.
  unfold phase_error_tracking. run_method.
  set (s1 := with_phase _ _).
  destruct (wrap_loops s1) as [_ Hf].
  rewrite Hf. reflexivity.
Qed.

(** ** Phase wrap-around on float values *)

Lemma powerRZ_2_nonneg (n : Z) : (0 <= n)%Z -> powerRZ 2 n = IZR (2 ^ n).
Proof.
  intros Hn. rewrite <- (Z2Nat.id n Hn) at 1.
  rewrite <- pow_powerRZ, pow_IZR, Z2Nat.id by exact Hn. reflexivity.
Qed.

Lemma binary32_opp (x : R) : binary32 x -> binary32 (- x).
Proof.
  intros (k & e & Hk & He & ->).
  exists (- k)%Z, e. rewrite Z.abs_opp, opp_IZR.
  repeat split; try assumption; try lia. ring.
Qed.

Lemma binary32_0 : binary32 0.
Proof. exists 0%Z, 0%Z. repeat split; try lia; simpl; try lra. Qed.

Lemma M_TWOPI_double_not_binary32 : ~ binary32 M_TWOPI_double.
Proof.
  intros (k & e & Hk & He & Heq). unfold M_TWOPI_double in Heq.
  assert (Hp : 0 < powerRZ 2 (-50)) by (apply powerRZ_lt; lra).
  replace e with ((e + 50) + (-50))%Z in Heq by lia.
  rewrite powerRZ_add in Heq by lra.
  assert (Hm : 7074237752028440 = IZR k * powerRZ 2 (e + 50)).
  { apply Rmult_eq_reg_r with (powerRZ 2 (-50)); lra. }
  clear Heq.
  destruct (Z_le_gt_dec 0 (e + 50)) as [Hn|Hn].
  - rewrite powerRZ_2_nonneg in Hm by exact Hn.
    rewrite <- mult_IZR in Hm. apply eq_IZR in Hm.
    destruct (Z_le_gt_dec 4 (e + 50)) as [H4|H4].
    + replace (e + 50)%Z with (4 + (e + 50 - 4))%Z in Hm by lia.
      rewrite Z.pow_add_r in Hm by lia.
      assert (Hmod : (7074237752028440 mod 16 = 0)%Z).
      { rewrite Hm. replace (k * (2 ^ 4 * 2 ^ (e + 50 - 4)))%Z
          with ((k * 2 ^ (e + 50 - 4)) * 16)%Z by (change (2 ^ 4)%Z with 16%Z; ring).
        apply Z.mod_mul. lia. }
      discriminate Hmod.
    + assert (Hc : (e + 50 = 0 \/ e + 50 = 1 \/ e + 50 = 2 \/ e + 50 = 3)%Z) by lia.
      destruct Hc as [Hc|[Hc|[Hc|Hc]]]; rewrite Hc in Hm; simpl in Hm; lia.
  - replace (e + 50)%Z with (- (- (e + 50)))%Z in Hm by lia.
    rewrite powerRZ_neg', powerRZ_2_nonneg in Hm by lia.
    assert (Hpos : (0 < 2 ^ (- (e + 50)))%Z) by (apply Z.pow_pos_nonneg; lia).
    assert (Hk' : IZR k = 7074237752028440 * IZR (2 ^ (- (e + 50)))).
    { rewrite Hm. field. apply not_0_IZR. lia. }
    rewrite <- mult_IZR in Hk'. apply eq_IZR in Hk'.
    assert (2 ^ 24 = 16777216)%Z by reflexivity. nia.
Qed.

Lemma M_TWOPI_double_gt_4 : 4 < M_TWOPI_double.
Proof. unfold M_TWOPI_double. simpl. lra. Qed.
Lemma M_TWOPI_double_pos : 0 < M_TWOPI_double.
Proof. pose proof M_TWOPI_double_gt_4. lra. Qed.

Lemma while_phase_gt_float_spec (p q : R) :
  while_phase_gt_float p q ->
  binary32 p ->
  binary32 q /\ q <= M_TWOPI_double /\ (q = p \/ 0 <= q).
Proof.
  induction 1 as [p Hexit | p r q Hgt Hst _ IH]; intros Hp.
  - repeat split; [exact Hp | lra | left; reflexivity].
  - destruct Hst as (Hr & Hpos & _ & _).
    destruct (IH Hr) as (Hq & Hle & Hor).
    repeat split; [exact Hq | exact Hle |].
    right. destruct Hor as [-> | H0]; [apply Hpos; lra | exact H0].
Qed.

Lemma while_phase_lt_float_spec (p q : R) :
  while_phase_lt_float p q ->
  binary32 p ->
  binary32 q /\ - M_TWOPI_double <= q /\ (q = p \/ q <= 0).
Proof.
  induction 1 as [p Hexit | p r q Hlt Hst _ IH]; intros Hp.
  - repeat split; [exact Hp | lra | left; reflexivity].
  - destruct Hst as (Hr & _ & Hneg & _).
    destruct (IH Hr) as (Hq & Hle & Hor).
    repeat split; [exact Hq | exact Hle |].
    right. destruct Hor as [-> | H0]; [apply Hneg; lra | exact H0].
Qed.

Lemma wrap_float_interval (p q : R) :
  binary32 p -> wrap_float p q ->
  binary32 q /\ - M_TWOPI_double < q < M_TWOPI_double.
Proof.
  intros Hp (p1 & Hgt & Hlt).
  pose proof M_TWOPI_double_pos as HT.
  destruct (while_phase_gt_float_spec p p1 Hgt Hp) as (Hp1 & Hle1 & _).
  destruct (while_phase_lt_float_spec p1 q Hlt Hp1) as (Hq & Hge & Hor).
  split; [exact Hq|].
  assert (Hne1 : q <> M_TWOPI_double).
  { intros ->. exact (M_TWOPI_double_not_binary32 Hq). }
  assert (Hne2 : q <> - M_TWOPI_double).
  { intros Heq. apply M_TWOPI_double_not_binary32.
    replace M_TWOPI_double with (- q) by lra. apply binary32_opp. exact Hq. }
  assert (Hle : q <= M_TWOPI_double) by (destruct Hor as [-> | H0]; lra).
  lra.
Qed.

Lemma Rabs_le_bounds (a b : R) : Rabs a <= b -> - b <= a <= b.
Proof. unfold Rabs. destruct (Rcase_abs a); lra. Qed.

Lemma stored_for_opp (x r : R) : stored_for x r -> stored_for (- x) (- r).
Proof.
  intros (Hr & Hpos & Hneg & Herr).
  split; [apply binary32_opp; exact Hr|].
  split; [intros H; assert (r <= 0) by (apply Hneg; lra); lra|].
  split; [intros H; assert (0 <= r) by (apply Hpos; lra); lra|].
  intros H. rewrite Rabs_Ropp in H.
  replace (- r - - x) with (- (r - x)) by ring. rewrite Rabs_Ropp.
  apply Herr. exact H.
Qed.

Lemma binary32_multiple_of_4 (k : Z) :
  (0 <= k <= 2 ^ 24)%Z -> binary32 (IZR k * 4).
Proof.
  intros Hk.
  destruct (Z_lt_ge_dec k (2 ^ 24)) as [Hlt|Hge].
  - exists k, 2%Z. repeat split; try lia. simpl. ring.
  - assert (Heq : k = (2 ^ 24)%Z) by lia. subst k.
    exists 1%Z, 26%Z. repeat split; try lia.
    change (2 ^ 24)%Z with 16777216%Z. simpl. lra.
Qed.

Lemma stored_for_exists_nonneg (x : R) : 0 <= x -> exists r : R, stored_for x r.
Proof.
  intros Hx.
  destruct (Rle_or_lt (Rabs x) (2 ^ 26)) as [Hb|Hb].
  - rewrite Rabs_pos_eq in Hb by exact Hx.
    destruct (base_Int_part (x / 4)) as [Hlo Hhi].
    set (k := Int_part (x / 4)) in *.
    assert (Hk0 : (0 <= k)%Z).
    { assert (Hk : (-1 < k)%Z) by (apply lt_IZR; simpl; lra). lia. }
    assert (Hk1 : (k <= 2 ^ 24)%Z).
    { apply le_IZR. change (2 ^ 24)%Z with 16777216%Z. lra. }
    exists (IZR k * 4).
    split; [apply binary32_multiple_of_4; lia|].
    assert (Hk0' : 0 <= IZR k) by (apply IZR_le; exact Hk0).
    split; [intros _; lra|].
    split; [intros H; lra|].
    intros _. apply Rabs_le. lra.
  - exists 0.
    split; [apply binary32_0|].
    split; [intros _; lra|].
    split; [intros _; lra|].
    intros H. lra.
Qed.

Lemma stored_for_exists (x : R) : exists r : R, stored_for x r.
Proof.
  destruct (Rle_or_lt 0 x) as [Hx|Hx].
  - apply stored_for_exists_nonneg. exact Hx.
  - destruct (stored_for_exists_nonneg (- x)) as [r Hr]; [lra|].
    exists (- r). replace x with (- - x) by ring.
    apply stored_for_opp. exact Hr.
Qed.

Lemma steps_cover (x d : R) : 0 < d -> exists n : nat, x <= INR n * d.
Proof.
  intros Hd.
  destruct (archimed (x / d)) as [Hup _].
  exists (Z.to_nat (up (x / d))).
  destruct (Z_le_gt_dec 0 (up (x / d))) as [Hz|Hz].
  - rewrite INR_IZR_INZ, Z2Nat.id by exact Hz.
    apply Rmult_lt_compat_r with (r := d) in Hup; [|exact Hd].
    unfold Rdiv in Hup. rewrite Rmult_assoc, Rinv_l, Rmult_1_r in Hup by lra. lra.
  - assert (Hneg : IZR (up (x / d)) < 0) by (apply IZR_lt; lia).
    assert (Hx : x / d < 0) by lra.
    apply Rmult_lt_compat_r with (r := d) in Hx; [|exact Hd].
    unfold Rdiv in Hx. rewrite Rmult_assoc, Rinv_l, Rmult_1_r, Rmult_0_l in Hx by lra.
    replace (Z.to_nat (up (x / d))) with 0%nat by lia. simpl. lra.
Qed.

Lemma while_phase_gt_ends_within (n : nat) :
  forall p : R,
    p <= 2 ^ 26 ->
    p <= M_TWOPI_double + INR n * (M_TWOPI_double - 4) ->
    while_phase_gt_ends p.
Proof.
  pose proof M_TWOPI_double_gt_4 as HT.
  induction n as [|n IH]; intros p Hb Hn.
  - apply gt_ends_exit. simpl in Hn. lra.
  - destruct (Rle_or_lt p M_TWOPI_double) as [Hle|Hgt].
    + apply gt_ends_exit. lra.
    + apply gt_ends_iter; [lra|].
      intros r (_ & _ & _ & Herr).
      assert (Hr : Rabs (r - (p - M_TWOPI_double)) <= 4).
      { apply Herr. apply Rabs_le. lra. }
      apply Rabs_le_bounds in Hr.
      rewrite S_INR in Hn.
      apply IH; lra.
Qed.

Lemma while_phase_gt_ends_bounded (p : R) : p <= 2 ^ 26 -> while_phase_gt_ends p.
Proof.
  pose proof M_TWOPI_double_gt_4 as HT.
  intros Hb.
  destruct (steps_cover (p - M_TWOPI_double) (M_TWOPI_double - 4)) as [n Hn]; [lra|].
  apply (while_phase_gt_ends_within n); lra.
Qed.

Lemma while_phase_lt_ends_within (n : nat) :
  forall p : R,
    - 2 ^ 26 <= p ->
    - M_TWOPI_double - INR n * (M_TWOPI_double - 4) <= p ->
    while_phase_lt_ends p.
Proof.
  pose proof M_TWOPI_double_gt_4 as HT.
  induction n as [|n IH]; intros p Hb Hn.
  - apply lt_ends_exit. simpl in Hn. lra.
  - destruct (Rle_or_lt (- M_TWOPI_double) p) as [Hle|Hgt].
    + apply lt_ends_exit. lra.
    + apply lt_ends_iter; [lra|].
      intros r (_ & _ & _ & Herr).
      assert (Hr : Rabs (r - (p + M_TWOPI_double)) <= 4).
      { apply Herr. apply Rabs_le. lra. }
      apply Rabs_le_bounds in Hr.
      rewrite S_INR in Hn.
      apply IH; lra.
Qed.

Lemma while_phase_lt_ends_bounded (p : R) : - 2 ^ 26 <= p -> while_phase_lt_ends p.
Proof.
  pose proof M_TWOPI_double_gt_4 as HT.
  intros Hb.
  destruct (steps_cover (- M_TWOPI_double - p) (M_TWOPI_double - 4)) as [n Hn]; [lra|].
  apply (while_phase_lt_ends_within n); lra.
Qed.

Lemma while_phase_gt_ends_result (p : R) :
  while_phase_gt_ends p -> exists q : R, while_phase_gt_float p q.
Proof.
  induction 1 as [p Hexit | p Hgt _ IH].
  - exists p. apply gt_float_exit. exact Hexit.
  - destruct (stored_for_exists (p - M_TWOPI_double)) as [r Hr].
    destruct (IH r Hr) as [q Hq].
    exists q. exact (gt_float_iter p r q Hgt Hr Hq).
Qed.

Lemma while_phase_lt_ends_result (p : R) :
  while_phase_lt_ends p -> exists q : R, while_phase_lt_float p q.
Proof.
  induction 1 as [p Hexit | p Hlt _ IH].
  - exists p. apply lt_float_exit. exact Hexit.
  - destruct (stored_for_exists (p + M_TWOPI_double)) as [r Hr].
    destruct (IH r Hr) as [q Hq].
    exists q. exact (lt_float_iter p r q Hlt Hr Hq).
Qed.

Lemma wrap_float_returns (p : R) :
  binary32 p -> Rabs p <= 2 ^ 26 ->
  wrap_float_ends p /\ exists q : R, wrap_float p q.
Proof.
  intros Hp Hb. apply Rabs_le_bounds in Hb.
  assert (Hgt : while_phase_gt_ends p) by (apply while_phase_gt_ends_bounded; lra).
  assert (Hlt : forall p1, while_phase_gt_float p p1 -> while_phase_lt_ends p1).
  { intros p1 H1. apply while_phase_lt_ends_bounded.
    destruct (while_phase_gt_float_spec p p1 H1 Hp) as (_ & _ & [-> | H0]); lra. }
  split; [split; assumption|].
  destruct (while_phase_gt_ends_result p Hgt) as [p1 H1].
  destruct (while_phase_lt_ends_result p1 (Hlt p1 H1)) as [q H2].
  exists q, p1. split; assumption.
Qed.

Lemma stored_for_near (x r : R) :
  stored_for x r -> Rabs x <= 2 ^ 26 -> binary32 r /\ x - 4 <= r <= x + 4.
Proof.
  intros (Hr & _ & _ & Herr) Hx.
  split; [exact Hr|].
  specialize (Herr Hx). apply Rabs_le_bounds in Herr. lra.
Qed.

Lemma tracking_sum_float_bounded (e : R) (s : receiver) (f1 p0 : R) :
  Rabs (d_phase s) <= 2 ^ 23 -> Rabs (d_freq s) <= 2 ^ 23 ->
  Rabs (d_beta s * e) <= 2 ^ 23 -> Rabs (d_alpha s * e) <= 2 ^ 23 ->
  tracking_sum_float e s f1 p0 ->
  binary32 p0 /\ Rabs p0 <= 2 ^ 26.
Proof.
  intros Hp Hf Hb Ha (t1 & t2 & t3 & H1 & H2 & H3 & H4 & H5).
  apply Rabs_le_bounds in Hp, Hf, Hb, Ha.
  destruct (stored_for_near _ _ H1) as [_ B1]; [apply Rabs_le; lra|].
  destruct (stored_for_near _ _ H2) as [_ B2]; [apply Rabs_le; lra|].
  destruct (stored_for_near _ _ H3) as [_ B3]; [apply Rabs_le; lra|].
  destruct (stored_for_near _ _ H4) as [_ B4]; [apply Rabs_le; lra|].
  destruct (stored_for_near _ _ H5) as [F5 B5]; [apply Rabs_le; lra|].
  split; [exact F5 | apply Rabs_le; lra].
Qed.

Lemma tracking_sum_float_exists (e : R) (s : receiver) :
  exists f1 p0 : R, tracking_sum_float e s f1 p0.
Proof.
  destruct (stored_for_exists (d_beta s * e)) as [t1 H1].
  destruct (stored_for_exists (d_freq s + t1)) as [f1 H2].
  destruct (stored_for_exists (d_alpha s * e)) as [t2 H3].
  destruct (stored_for_exists (f1 + t2)) as [t3 H4].
  destruct (stored_for_exists (d_phase s + t3)) as [p0 H5].
  exists f1, p0, t1, t2, t3.
  split; [exact H1|]. split; [exact H2|]. split; [exact H3|].
  split; [exact H4 | exact H5].
Qed.

(** C2: on float values, every call of [set_phase] that returns, whatever
    float it is given, and every call of [phase_error_tracking] that
    returns leave a phase strictly above [-M_TWOPI] and at most [M_TWOPI]:
    [-M_TWOPI] is never stored, since no float equals it.  [set_phase]
    returns for every argument of magnitude up to 2^26, and
    [phase_error_tracking] returns whenever the phase, the frequency and
    the two corrections [beta*e] and [alpha*e] are at most 2^23 in
    magnitude: every run of the two loops then ends. *)
Theorem phase_stored_in_half_open_interval (p e : R) (s : receiver) :
  binary32 p ->
  (forall s' : receiver,
     set_phase_float p s s' ->
     - M_TWOPI_double < d_phase s' <= M_TWOPI_double) /\
  (forall s' : receiver,
     phase_error_tracking_float e s s' ->
     - M_TWOPI_double < d_phase s' <= M_TWOPI_double) /\
  (Rabs p <= 2 ^ 26 ->
   wrap_float_ends p /\ exists s' : receiver, set_phase_float p s s') /\
  (Rabs (d_phase s) <= 2 ^ 23 -> Rabs (d_freq s) <= 2 ^ 23 ->
   Rabs (d_beta s * e) <= 2 ^ 23 -> Rabs (d_alpha s * e) <= 2 ^ 23 ->
   (forall f1 p0 : R, tracking_sum_float e s f1 p0 -> wrap_float_ends p0) /\
   exists s' : receiver, phase_error_tracking_float e s s').
Proof.
  intros Hp.
  split; [|split; [|split]].
  - intros s' (q & Hw & ->). simpl.
    destruct (wrap_float_interval p q Hp Hw) as [_ Hq]. lra.
  - intros s' (f1 & p0 & q & f2 & Hsum & Hw & _ & ->). simpl.
    assert (Hp0 : binary32 p0).
    { destruct Hsum as (t1 & t2 & t3 & _ & _ & _ & _ & H5). apply H5. }
    destruct (wrap_float_interval p0 q Hp0 Hw) as [_ Hq]. lra.
  - intros Hb.
    destruct (wrap_float_returns p Hp Hb) as [Hends [q Hq]].
    split; [exact Hends|].
    exists (with_phase q s), q. split; [exact Hq | reflexivity].
  - intros B1 B2 B3 B4.
    split.
    + intros f1 p0 Hsum.
      destruct (tracking_sum_float_bounded e s f1 p0 B1 B2 B3 B4 Hsum) as [F Hb].
      apply (wrap_float_returns p0 F Hb).
    + destruct (tracking_sum_float_exists e s) as (f1 & p0 & Hsum).
      destruct (tracking_sum_float_bounded e s f1 p0 B1 B2 B3 B4 Hsum) as [F Hb].
      destruct (wrap_float_returns p0 F Hb) as [_ [q Hq]].
      exists (with_freq 0 (with_phase q s)), f1, p0, q, 0.
      split; [exact Hsum|]. split; [exact Hq|].
      split; [apply binary32_0 | reflexivity].
Qed.

Lemma binary32_10 : binary32 10.
Proof. exists 5%Z, 1%Z. repeat split; try lia. simpl. lra. Qed.

Lemma phase_stored_in_half_open_interval_witness :
  let s := with_alpha 1 (with_beta 1 idle_receiver) in
  (forall s' : receiver,
     set_phase_float 10 s s' ->
     - M_TWOPI_double < d_phase s' <= M_TWOPI_double) /\
  (forall s' : receiver,
     phase_error_tracking_float 1 s s' ->
     - M_TWOPI_double < d_phase s' <= M_TWOPI_double) /\
  (wrap_float_ends 10 /\ exists s' : receiver, set_phase_float 10 s s') /\
  ((forall f1 p0 : R, tracking_sum_float 1 s f1 p0 -> wrap_float_ends p0) /\
   exists s' : receiver, phase_error_tracking_float 1 s s').
Proof.
  intros s.
  destruct (phase_stored_in_half_open_interval 10 1 s binary32_10) as (A & B & C & D).
  split; [exact A|]. split; [exact B|].
  split.
  - apply C. apply Rabs_le. lra.
  - apply D; simpl; apply Rabs_le; lra.
Defined.

(** A phase has one wrap only. *)
Lemma wraps_to_unique (x p q : R) : wraps_to x p -> wraps_to x q -> p = q.
Proof.
  pose proof M_TWOPI_pos as HT.
  intros (Hp & (k & Hk) & Hin & Hhi & Hlo) (Hq & (l & Hl) & Hin' & Hhi' & Hlo').
  destruct (Rle_or_lt x M_TWOPI) as [Hx|Hx].
  - destruct (Rle_or_lt (- M_TWOPI) x) as [Hx'|Hx'].
    + rewrite Hin, Hin' by lra. reflexivity.
    + specialize (Hlo Hx'). specialize (Hlo' Hx').
      assert (Hd : IZR (k - l) * M_TWOPI = p - q) by (rewrite minus_IZR; lra).
      assert (k - l = 0)%Z.
      { assert (-1 < k - l < 1)%Z; [|lia].
        split; apply lt_IZR; apply Rmult_lt_reg_r with M_TWOPI; try exact HT;
          rewrite Hd; simpl; lra. }
      replace k with l in Hk by lia. lra.
  - specialize (Hhi Hx). specialize (Hhi' Hx).
    assert (Hd : IZR (k - l) * M_TWOPI = p - q) by (rewrite minus_IZR; lra).
    assert (k - l = 0)%Z.
    { assert (-1 < k - l < 1)%Z; [|lia].
      split; apply lt_IZR; apply Rmult_lt_reg_r with M_TWOPI; try exact HT;
        rewrite Hd; simpl; lra. }
    replace k with l in Hk by lia. lra.
Qed.

Lemma phase_error_tracking_effect (e : R) (s : receiver) :
  let s' := members (phase_error_tracking e) s in
  d_freq s' = gr_branchless_clip (d_freq s + d_beta s * e) (d_max_freq s) /\
  wraps_to (d_phase s + (d_freq s + d_beta s * e) + d_alpha s * e) (d_phase s') /\
  s' = with_freq (d_freq s') (with_phase (d_phase s') s).
Proof.
  cbv zeta. unfold members. rewrite phase_error_tracking_run. simpl.
  set (x := d_phase s + (d_freq s + d_beta s * e + d_alpha s * e)).
  replace (d_phase s + (d_freq s + d_beta s * e) + d_alpha s * e) with x
    by (unfold x; ring).
  set (s1 := with_phase x (with_freq (d_freq s + d_beta s * e) s)).
  destruct (wrap_loops s1) as [Hw Hf].
  split; [reflexivity|]. split; [exact Hw|].
  rewrite Hf. reflexivity.
Qed.

(** C5: one call of [phase_error_tracking] with phase error [e] returns;
    the frequency it stores is the clip of [frequency + beta*e]; the phase
    it stores is the wrap, as [set_phase] wraps, of
    [phase + frequency_new + alpha*e], where [frequency_new] is the
    frequency already updated by [beta*e] and not yet clipped; no other
    member changes. *)
Theorem phase_error_tracking_order (e : R) (s : receiver) :
  let frequency_new := d_freq s + d_beta s * e in
  let phase_new := d_phase s + frequency_new + d_alpha s * e in
  let s' := members (phase_error_tracking e) s in
  result (phase_error_tracking e) s = Returned tt /\
  d_freq s' = gr_branchless_clip frequency_new (d_max_freq s) /\
  wraps_to phase_new (d_phase s') /\
  d_phase s' = d_phase (members (set_phase phase_new) s) /\
  s' = with_freq (d_freq s') (with_phase (d_phase s') s).
Proof.
  cbv zeta.
  destruct (phase_error_tracking_effect e s) as (Hf & Hw & Hs).
  destruct (set_phase_wraps (d_phase s + (d_freq s + d_beta s * e) + d_alpha s * e) s)
    as (_ & Hw' & _).
  split; [unfold result; rewrite phase_error_tracking_run; reflexivity|].
  split; [exact Hf|]. split; [exact Hw|].
  split; [|exact Hs].
  apply wraps_to_unique with (d_phase s + (d_freq s + d_beta s * e) + d_alpha s * e);
    [exact Hw | exact Hw'].
Qed.

(** C6: when [max_freq] is not negative, the frequency stored by
    [phase_error_tracking] is at most [max_freq] in magnitude, whatever the
    phase error and the members before the call; [min_freq] plays no part,
    another value of it gives the same frequency and the same phase. *)
Theorem frequency_clipped_to_max_freq (e : R) (s : receiver) :
  0 <= d_max_freq s ->
  Rabs (d_freq (members (phase_error_tracking e) s)) <= d_max_freq s /\
  d_max_freq (members (phase_error_tracking e) s) = d_max_freq s /\
  forall m : R,
    d_freq (members (phase_error_tracking e) (with_min_freq m s)) =
      d_freq (members (phase_error_tracking e) s) /\
    d_phase (members (phase_error_tracking e) (with_min_freq m s)) =
      d_phase (members (phase_error_tracking e) s).
Proof.
  intros Hmax.
  destruct (phase_error_tracking_effect e s) as (Hf & Hp & Hs).
  split; [rewrite Hf; apply gr_branchless_clip_bound; exact Hmax|].
  split; [rewrite Hs; reflexivity|].
  intros m.
  destruct (phase_error_tracking_effect e (with_min_freq m s)) as (Hf' & Hp' & _).
  split; [rewrite Hf', Hf; reflexivity|].
  apply wraps_to_unique with (d_phase s + (d_freq s + d_beta s * e) + d_alpha s * e);
    [exact Hp' | exact Hp].
Qed.

Lemma frequency_clipped_to_max_freq_witness :
  Rabs (d_freq (members (phase_error_tracking 5) (with_beta 1 idle_receiver))) <= 1 /\
  d_max_freq (members (phase_error_tracking 5) (with_beta 1 idle_receiver)) = 1 /\
  forall m : R,
    d_freq (members (phase_error_tracking 5)
              (with_min_freq m (with_beta 1 idle_receiver))) =
      d_freq (members (phase_error_tracking 5) (with_beta 1 idle_receiver)) /\
    d_phase (members (phase_error_tracking 5)
               (with_min_freq m (with_beta 1 idle_receiver))) =
      d_phase (members (phase_error_tracking 5) (with_beta 1 idle_receiver)).
Proof.
  apply (frequency_clipped_to_max_freq 5 (with_beta 1 idle_receiver)).
  simpl. lra.
Defined.

(** ** Explicit frequency setting *)

(** C3: on members whose search range is ordered ([min_freq <= max_freq],
    as the data model requires), [set_frequency(f)] returns without an
    exception, stores [min_freq] when [f > max_freq], stores [max_freq]
    when [f < min_freq], stores [f] when it is within the range, and
    changes no member but the frequency. *)
Theorem set_frequency_wraps_at_bounds (f : R) (s : receiver) :
  d_min_freq s <= d_max_freq s ->
  let s' := members (set_frequency f) s in
  result (set_frequency f) s = Returned tt /\
  (f > d_max_freq s -> d_freq s' = d_min_freq s) /\
  (f < d_min_freq s -> d_freq s' = d_max_freq s) /\
  (d_min_freq s <= f <= d_max_freq s -> d_freq s' = f) /\
  s' = with_freq (d_freq s') s.
Proof.
  intros Hrange. cbv zeta. unfold set_frequency. run_method.
  destruct (Rgtb f (d_max_freq s)) eqn:Hgt; [apply Rgtb_true in Hgt | apply Rgtb_false in Hgt];
    [|destruct (Rltb f (d_min_freq s)) eqn:Hlt;
      [apply Rltb_true in Hlt | apply Rltb_false in Hlt]];
    simpl; repeat split; intros; try reflexivity; lra.
Qed.

Lemma set_frequency_wraps_at_bounds_witness :
  let s' := members (set_frequency 2) idle_receiver in
  result (set_frequency 2) idle_receiver = Returned tt /\
  (2 > d_max_freq idle_receiver -> d_freq s' = d_min_freq idle_receiver) /\
  (2 < d_min_freq idle_receiver -> d_freq s' = d_max_freq idle_receiver) /\
  (d_min_freq idle_receiver <= 2 <= d_max_freq idle_receiver -> d_freq s' = 2) /\
  s' = with_freq (d_freq s') idle_receiver.
Proof.
  apply (set_frequency_wraps_at_bounds 2 idle_receiver).
  simpl. lra.
Defined.

(** ** Validation in the setters *)

Lemma out_of_unit_interval (x : R) :
  Rltb x 0 || Rgtb x 1 = true <-> x < 0 \/ x > 1.
Proof.
  rewrite orb_true_iff, Rltb_true, Rgtb_true. reflexivity.
Qed.

(** C7: each of [set_loop_bandwidth], [set_damping_factor], [set_alpha] and
    [set_beta] throws exactly when its argument is out of range (below 0 for
    the bandwidth, outside the interval from 0 to 1 for the others); what
    it throws is [std::out_of_range], and the members are then what they
    were before the call. *)
Theorem setters_reject_before_apply (x : R) (s : receiver) :
  (throws (set_loop_bandwidth x) s <-> x < 0) /\
  (throws (set_damping_factor x) s <-> x < 0 \/ x > 1) /\
  (throws (set_alpha x) s <-> x < 0 \/ x > 1) /\
  (throws (set_beta x) s <-> x < 0 \/ x > 1) /\
  (forall m : M unit,
     In m [set_loop_bandwidth x; set_damping_factor x; set_alpha x; set_beta x] ->
     throws m s ->
     (exists what, result m s = Thrown (out_of_range what)) /\ members m s = s).
Proof.
  assert (Hbw : throws (set_loop_bandwidth x) s <-> x < 0).
  { unfold set_loop_bandwidth, update_gains. run_method.
    destruct (Rltb x 0) eqn:Hc; simpl.
    - apply Rltb_true in Hc. split; [intros _; exact Hc | intros _; eexists; reflexivity].
    - apply Rltb_false in Hc. split; [intros [w Hw]; discriminate | intros; lra]. }
  assert (Hdf : throws (set_damping_factor x) s <-> x < 0 \/ x > 1).
  { rewrite <- out_of_unit_interval.
    unfold set_damping_factor, update_gains. run_method.
    destruct (Rltb x 0 || Rgtb x 1); simpl.
    - split; [reflexivity | intros _; eexists; reflexivity].
    - split; [intros [w Hw]; discriminate | discriminate]. }
  assert (Ha : throws (set_alpha x) s <-> x < 0 \/ x > 1).
  { rewrite <- out_of_unit_interval.
    unfold set_alpha. run_method.
    destruct (Rltb x 0 || Rgtb x 1); simpl.
    - split; [reflexivity | intros _; eexists; reflexivity].
    - split; [intros [w Hw]; discriminate | discriminate]. }
  assert (Hb : throws (set_beta x) s <-> x < 0 \/ x > 1).
  { rewrite <- out_of_unit_interval.
    unfold set_beta. run_method.
    destruct (Rltb x 0 || Rgtb x 1); simpl.
    - split; [reflexivity | intros _; eexists; reflexivity].
    - split; [intros [w Hw]; discriminate | discriminate]. }
  split; [exact Hbw|]. split; [exact Hdf|]. split; [exact Ha|]. split; [exact Hb|].
  intros m Hin Hthrow.
  destruct Hin as [<-|[<-|[<-|[<-|[]]]]].
  - apply Hbw in Hthrow. apply Rltb_true in Hthrow.
    unfold set_loop_bandwidth. run_method. rewrite Hthrow. simpl.
    split; [eexists; reflexivity | reflexivity].
  - apply Hdf in Hthrow. apply out_of_unit_interval in Hthrow.
    unfold set_damping_factor. run_method. rewrite Hthrow. simpl.
    split; [eexists; reflexivity | reflexivity].
  - apply Ha in Hthrow. apply out_of_unit_interval in Hthrow.
    unfold set_alpha. run_method. rewrite Hthrow. simpl.
    split; [eexists; reflexivity | reflexivity].
  - apply Hb in Hthrow. apply out_of_unit_interval in Hthrow.
    unfold set_beta. run_method. rewrite Hthrow. simpl.
    split; [eexists; reflexivity | reflexivity].
Qed.

(** ** Gain derivation *)

Lemma quotient_bounds (x d c : R) :
  0 < d -> 0 <= x -> x <= c * d -> 0 <= x / d <= c.
Proof.
  intros Hd Hx Hc. unfold Rdiv.
  assert (Hinv : 0 < / d) by (apply Rinv_0_lt_compat; exact Hd).
  split.
  - apply Rmult_le_pos; lra.
  - replace c with (c * d * / d) by (field; lra).
    apply Rmult_le_compat_r; lra.
Qed.

Lemma quotient_below (x d c : R) :
  0 < d -> x < c * d -> x / d < c.
Proof.
  intros Hd Hc. unfold Rdiv.
  assert (Hinv : 0 < / d) by (apply Rinv_0_lt_compat; exact Hd).
  replace c with (c * d * / d) by (field; lra).
  apply Rmult_lt_compat_r; lra.
Qed.

Lemma update_gains_run (s : receiver) :
  update_gains s =
  (Returned tt,
   with_beta
     ((4 * d_loop_bw s * d_loop_bw s) /
      (1 + 2 * d_damping s * d_loop_bw s + d_loop_bw s * d_loop_bw s))
     (with_alpha
        ((4 * d_damping s * d_loop_bw s) /
         (1 + 2 * d_damping s * d_loop_bw s + d_loop_bw s * d_loop_bw s)) s)).
Proof. reflexivity. Qed.

Lemma denom_at_least_one (d b : R) :
  0 <= d <= 1 -> 0 <= b -> 1 <= 1 + 2 * d * b + b * b.
Proof. intros Hd Hb. nra. Qed.

(** C8: [update_gains] returns, with
    [alpha = 4*damping*bandwidth / denom] and
    [beta = 4*bandwidth^2 / denom] for
    [denom = 1 + 2*damping*bandwidth + bandwidth^2], touching no other
    member; and when the stored damping is between 0 and 1 and the stored
    bandwidth is not negative, [denom] is at least 1 and both gains are
    between 0 and 4. *)
Theorem update_gains_formula (s : receiver) :
  0 <= d_damping s <= 1 ->
  0 <= d_loop_bw s ->
  let denom := 1 + 2 * d_damping s * d_loop_bw s + d_loop_bw s * d_loop_bw s in
  let s' := members update_gains s in
  result update_gains s = Returned tt /\
  1 <= denom /\
  d_alpha s' = 4 * d_damping s * d_loop_bw s / denom /\
  d_beta s' = 4 * (d_loop_bw s * d_loop_bw s) / denom /\
  0 <= d_alpha s' <= 4 /\
  0 <= d_beta s' <= 4 /\
  s' = with_beta (d_beta s') (with_alpha (d_alpha s') s).
Proof.
  intros Hd Hb. cbv zeta.
  unfold result, members. rewrite update_gains_run. simpl.
  pose proof (denom_at_least_one _ _ Hd Hb) as Hden.
  split; [reflexivity|].
  split; [exact Hden|].
  split; [reflexivity|].
  split; [f_equal; ring|].
  split; [apply quotient_bounds; nra|].
  split; [apply quotient_bounds; nra|].
  reflexivity.
Qed.

Lemma update_gains_formula_witness :
  let s := with_damping (1 / 2) (with_loop_bw 1 idle_receiver) in
  let denom := 1 + 2 * d_damping s * d_loop_bw s + d_loop_bw s * d_loop_bw s in
  let s' := members update_gains s in
  result update_gains s = Returned tt /\
  1 <= denom /\
  d_alpha s' = 4 * d_damping s * d_loop_bw s / denom /\
  d_beta s' = 4 * (d_loop_bw s * d_loop_bw s) / denom /\
  0 <= d_alpha s' <= 4 /\
  0 <= d_beta s' <= 4 /\
  s' = with_beta (d_beta s') (with_alpha (d_alpha s') s).
Proof.
  apply (update_gains_formula (with_damping (1 / 2) (with_loop_bw 1 idle_receiver)));
    simpl; lra.
Defined.

Lemma derived_gains (s : receiver) :
  0 <= d_damping s <= 1 ->
  0 <= d_loop_bw s ->
  0 <= d_alpha (members update_gains s) <= 1 /\
  0 <= d_beta (members update_gains s) <= 4.
Proof.
  intros Hd Hb.
  unfold members. rewrite update_gains_run. simpl.
  pose proof (denom_at_least_one _ _ Hd Hb) as Hden.
  assert (Hdb : d_damping s * d_loop_bw s <= d_loop_bw s) by nra.
  assert (Hsq : 2 * d_loop_bw s <= 1 + d_loop_bw s * d_loop_bw s)
    by (pose proof (Rle_0_sqr (1 - d_loop_bw s)) as Hs; unfold Rsqr in Hs; lra).
  split.
  - apply quotient_bounds; nra.
  - apply quotient_bounds; nra.
Qed.

(** C4 (as amended): when the gains are derived from a stored damping
    between 0 and 1 and a stored bandwidth that is not negative, by
    [update_gains] itself or through a [set_loop_bandwidth] or
    [set_damping_factor] call with an argument in range (which then
    returns), alpha is between 0 and 1 and beta is between 0 and 4. *)
Theorem derived_gains_range (s : receiver) :
  0 <= d_damping s <= 1 ->
  0 <= d_loop_bw s ->
  (0 <= d_alpha (members update_gains s) <= 1 /\
   0 <= d_beta (members update_gains s) <= 4) /\
  (forall bw : R, 0 <= bw ->
     result (set_loop_bandwidth bw) s = Returned tt /\
     0 <= d_alpha (members (set_loop_bandwidth bw) s) <= 1 /\
     0 <= d_beta (members (set_loop_bandwidth bw) s) <= 4) /\
  (forall df : R, 0 <= df <= 1 ->
     result (set_damping_factor df) s = Returned tt /\
     0 <= d_alpha (members (set_damping_factor df) s) <= 1 /\
     0 <= d_beta (members (set_damping_factor df) s) <= 4).
Proof.
  intros Hd Hb.
  split; [apply derived_gains; assumption|].
  split.
  - intros bw Hbw.
    assert (Hc : Rltb bw 0 = false) by (apply Rltb_false; exact Hbw).
    unfold set_loop_bandwidth, result, members, bind. simpl.
    rewrite Hc. simpl.
    split; [reflexivity|].
    apply (derived_gains (with_loop_bw bw s)); simpl; assumption.
  - intros df Hdf.
    assert (Hc : Rltb df 0 || Rgtb df 1 = false).
    { apply orb_false_iff. split; [apply Rltb_false | apply Rgtb_false]; lra. }
    unfold set_damping_factor, result, members, bind. simpl.
    rewrite Hc. simpl.
    split; [reflexivity|].
    apply (derived_gains (with_damping df s)); simpl; assumption.
Qed.

Lemma derived_gains_range_witness :
  let s := with_damping (1 / 2) (with_loop_bw 1 idle_receiver) in
  (0 <= d_alpha (members update_gains s) <= 1 /\
   0 <= d_beta (members update_gains s) <= 4) /\
  (forall bw : R, 0 <= bw ->
     result (set_loop_bandwidth bw) s = Returned tt /\
     0 <= d_alpha (members (set_loop_bandwidth bw) s) <= 1 /\
     0 <= d_beta (members (set_loop_bandwidth bw) s) <= 4) /\
  (forall df : R, 0 <= df <= 1 ->
     result (set_damping_factor df) s = Returned tt /\
     0 <= d_alpha (members (set_damping_factor df) s) <= 1 /\
     0 <= d_beta (members (set_damping_factor df) s) <= 4).
Proof.
  apply (derived_gains_range (with_damping (1 / 2) (with_loop_bw 1 idle_receiver)));
    simpl; lra.
Defined.

(** C4 (as stated) fails: [set_damping_factor(0)] and then
    [set_loop_bandwidth(1)] both succeed, and the beta derived from them
    is 2. *)
Lemma derived_beta_exceeds_one :
  result (set_damping_factor 0 ;; set_loop_bandwidth 1) idle_receiver = Returned tt /\
  d_beta (members (set_damping_factor 0 ;; set_loop_bandwidth 1) idle_receiver) = 2 /\
  ~ (0 <= d_beta (members (set_damping_factor 0 ;; set_loop_bandwidth 1) idle_receiver)
     <= 1).
Proof.
  assert (H1 : Rltb 0 0 || Rgtb 0 1 = false).
  { apply orb_false_iff. split; [apply Rltb_false | apply Rgtb_false]; lra. }
  assert (H2 : Rltb 1 0 = false) by (apply Rltb_false; lra).
  unfold set_damping_factor, set_loop_bandwidth, result, members, bind.
  simpl. rewrite H1. simpl. rewrite H2. simpl.
  assert (Hb : 4 * 1 * 1 / (1 + 2 * 0 * 1 + 1 * 1) = 2) by (field; lra).
  rewrite Hb.
  split; [reflexivity|]. split; [reflexivity|]. lra.
Qed.

(** ** Construction *)

Lemma construction_checks_dimension_first (raw : receiver)
  (c : digital_constellation) (loop_bw fmin fmax : R) :
  dimensionality c <> 1%Z ->
  exists what,
    digital_make_constellation_receiver_cb raw c loop_bw fmin fmax =
      Thrown (runtime_error what).
Proof.
  intros Hdim.
  unfold digital_make_constellation_receiver_cb, digital_constellation_receiver_cb.
  run_method.
  destruct (Z.eqb_spec (dimensionality c) 1) as [Heq|_]; [contradiction|].
  simpl. eexists; reflexivity.
Qed.

(** C10: constructing a receiver on a constellation of dimension 1 with a
    negative [loop_bw] ends with the [std::out_of_range] exception that
    [set_loop_bandwidth] throws; no object is returned, and the exception
    is not the [std::runtime_error] of the dimension check. *)
Theorem construction_rejects_negative_bandwidth (raw : receiver)
  (c : digital_constellation) (loop_bw fmin fmax : R) :
  dimensionality c = 1%Z ->
  loop_bw < 0 ->
  (exists what,
     digital_make_constellation_receiver_cb raw c loop_bw fmin fmax =
       Thrown (out_of_range what) /\
     forall s : receiver,
       result (set_loop_bandwidth loop_bw) s = Thrown (out_of_range what)) /\
  (forall s : receiver,
     digital_make_constellation_receiver_cb raw c loop_bw fmin fmax <> Returned s) /\
  (forall what,
     digital_make_constellation_receiver_cb raw c loop_bw fmin fmax <>
       Thrown (runtime_error what)).
Proof.
  intros Hdim Hbw.
  apply Rltb_true in Hbw.
  unfold digital_make_constellation_receiver_cb, digital_constellation_receiver_cb,
    set_loop_bandwidth.
  run_method. rewrite Hdim. simpl. rewrite Hbw. simpl.
  split; [eexists; split; [reflexivity | intros s; reflexivity]|].
  split; intros; discriminate.
Qed.

Lemma construction_rejects_negative_bandwidth_witness :
  (exists what,
     digital_make_constellation_receiver_cb idle_receiver sign_constellation (-1) (-1) 1 =
       Thrown (out_of_range what) /\
     forall s : receiver,
       result (set_loop_bandwidth (-1)) s = Thrown (out_of_range what)) /\
  (forall s : receiver,
     digital_make_constellation_receiver_cb idle_receiver sign_constellation (-1) (-1) 1
       <> Returned s) /\
  (forall what,
     digital_make_constellation_receiver_cb idle_receiver sign_constellation (-1) (-1) 1
       <> Thrown (runtime_error what)).
Proof.
  apply (construction_rejects_negative_bandwidth idle_receiver sign_constellation
           (-1) (-1) 1).
  - reflexivity.
  - lra.
Defined.

(** ** The stream driver *)

Lemma general_work_loop_step (noutput_items ninput_items0 : Z)
  (in_ : Z -> gr_complex) (i : Z) (s : receiver) (o : output_items) :
  (i < noutput_items)%Z -> (i < ninput_items0)%Z ->
  general_work_loop noutput_items ninput_items0 in_ i s o =
  general_work_loop noutput_items ninput_items0 in_ (i + 1)
    (fst (loop_body in_ i s o)) (snd (loop_body in_ i s o)).
Proof.
  intros H1 H2. rewrite general_work_loop_equation_1.
  destruct (loop_test i noutput_items ninput_items0) as [Hy|Hn]; [reflexivity|].
  exfalso. apply Hn. split; assumption.
Qed.

Lemma general_work_loop_exit (noutput_items ninput_items0 : Z)
  (in_ : Z -> gr_complex) (i : Z) (s : receiver) (o : output_items) :
  ~ ((i < noutput_items)%Z /\ (i < ninput_items0)%Z) ->
  general_work_loop noutput_items ninput_items0 in_ i s o = (i, (s, o)).
Proof.
  intros Hn. rewrite general_work_loop_equation_1.
  destruct (loop_test i noutput_items ninput_items0) as [Hy|Hn']; [contradiction|].
  reflexivity.
Qed.

(** From counter [i], the loop runs the body once per index up to the
    smaller of the two counts and stops there. *)
Lemma general_work_loop_count (noutput_items ninput_items0 : Z)
  (in_ : Z -> gr_complex) (d : nat) :
  forall (i : Z) (s : receiver) (o : output_items),
    (i + Z.of_nat d = Z.min ninput_items0 noutput_items)%Z ->
    general_work_loop noutput_items ninput_items0 in_ i s o =
      (Z.min ninput_items0 noutput_items, iterations in_ d i s o).
Proof.
  induction d as [|d IH]; intros i s o Hd.
  - rewrite general_work_loop_exit by lia. simpl. f_equal. lia.
  - rewrite general_work_loop_step by lia. rewrite IH by lia. reflexivity.
Qed.

Lemma general_work_run (noutput_items : Z) (ninput_items : list Z)
  (in_ : Z -> gr_complex) (o : output_items) (s : receiver) :
  (0 <= nth 0 ninput_items 0)%Z -> (0 <= noutput_items)%Z ->
  general_work noutput_items ninput_items in_ o s =
  let n := Z.min (nth 0 ninput_items 0%Z) noutput_items in
  let r := iterations in_ (Z.to_nat n) 0 s o in
  (Returned (mk_work_done n n (snd r)), fst r).
Proof.
  intros Hin Hout. unfold general_work. cbv zeta.
  rewrite (general_work_loop_count _ _ _
             (Z.to_nat (Z.min (nth 0 ninput_items 0%Z) noutput_items))) by lia.
  reflexivity.
Qed.

Lemma store_same {A : Type} (buf : Z -> A) (i : Z) (v : A) : store buf i v i = v.
Proof. unfold store. rewrite Z.eqb_refl. reflexivity. Qed.

Lemma store_other {A : Type} (buf : Z -> A) (i k : Z) (v : A) :
  k <> i -> store buf i v k = buf k.
Proof. intros Hk. unfold store. destruct (Z.eqb_spec k i); [contradiction|reflexivity]. Qed.

(** The body writes the decided symbol at its own index and nowhere else
    in the symbol buffer. *)
Lemma loop_body_out (in_ : Z -> gr_complex) (i : Z) (s : receiver) (o : output_items) :
  out (snd (loop_body in_ i s o)) =
  store (out o) i
    (fst (decision_maker_pe (d_constellation s) (downconverted s (in_ i))) mod 256)%Z.
Proof.
  unfold loop_body. cbv zeta. simpl.
  destruct (Nat.eqb (size o) 4); reflexivity.
Qed.

Lemma loop_body_members (in_ : Z -> gr_complex) (i : Z) (s : receiver) (o : output_items) :
  fst (loop_body in_ i s o) =
  members (phase_error_tracking
             (snd (decision_maker_pe (d_constellation s) (downconverted s (in_ i))))) s.
Proof. reflexivity. Qed.

Lemma iterations_out_frame (in_ : Z -> gr_complex) (n : nat) :
  forall (i : Z) (s : receiver) (o : output_items) (k : Z),
    (k < i \/ i + Z.of_nat n <= k)%Z ->
    out (snd (iterations in_ n i s o)) k = out o k.
Proof.
  induction n as [|n IH]; intros i s o k Hk; [reflexivity|].
  cbn [iterations]. rewrite IH by lia. rewrite loop_body_out. apply store_other. lia.
Qed.

Lemma iterations_app (in_ : Z -> gr_complex) (a b : nat) :
  forall (i : Z) (s : receiver) (o : output_items),
    iterations in_ (a + b) i s o =
    iterations in_ b (i + Z.of_nat a)
      (fst (iterations in_ a i s o)) (snd (iterations in_ a i s o)).
Proof.
  induction a as [|a IH]; intros i s o.
  - simpl. rewrite Z.add_0_r. reflexivity.
  - cbn [Nat.add iterations]. rewrite IH. f_equal. lia.
Qed.

(** C9: with [available_in] input samples and [noutput_items] output
    slots, neither negative, [general_work] returns
    [n = min(available_in, noutput_items)], passes [n] to [consume_each],
    and has run the loop body exactly [n] times, on the indices from 0 to
    [n - 1]: the symbol buffer is untouched elsewhere.  When either count
    is 0 it returns 0 and leaves the members and every buffer as they
    were; it never throws. *)
Theorem general_work_batch (noutput_items : Z) (ninput_items : list Z)
  (in_ : Z -> gr_complex) (o : output_items) (s : receiver) :
  let available_in := nth 0 ninput_items 0%Z in
  let n := Z.min available_in noutput_items in
  (0 <= available_in)%Z ->
  (0 <= noutput_items)%Z ->
  exists w : work_done,
    result (general_work noutput_items ninput_items in_ o) s = Returned w /\
    returned w = n /\
    consumed_each w = n /\
    (members (general_work noutput_items ninput_items in_ o) s, written w) =
      iterations in_ (Z.to_nat n) 0 s o /\
    (forall k : Z, ~ (0 <= k < n)%Z -> out (written w) k = out o k) /\
    (available_in = 0%Z \/ noutput_items = 0%Z ->
     returned w = 0%Z /\ consumed_each w = 0%Z /\
     members (general_work noutput_items ninput_items in_ o) s = s /\
     written w = o).
Proof.
  cbv zeta. intros Hin Hout.
  unfold result, members. rewrite general_work_run by assumption. cbv zeta. simpl.
  eexists. split; [reflexivity|]. simpl.
  split; [reflexivity|]. split; [reflexivity|].
  split; [symmetry; apply surjective_pairing|].
  split.
  - intros k Hk. apply iterations_out_frame. lia.
  - intros Hzero.
    assert (Hn : Z.min (nth 0 ninput_items 0%Z) noutput_items = 0%Z) by lia.
    rewrite Hn. simpl. repeat split; reflexivity.
Qed.

Lemma general_work_batch_witness :
  let in_ := fun _ : Z => mk_complex 1 0 in
  let o := mk_outputs 1 (fun _ => 0%Z) (fun _ => 0) (fun _ => 0) (fun _ => 0) in
  exists w : work_done,
    result (general_work 3 [5%Z] in_ o) idle_receiver = Returned w /\
    returned w = 3%Z /\
    consumed_each w = 3%Z /\
    (members (general_work 3 [5%Z] in_ o) idle_receiver, written w) =
      iterations in_ 3 0 idle_receiver o /\
    (forall k : Z, ~ (0 <= k < 3)%Z -> out (written w) k = out o k) /\
    (5%Z = 0%Z \/ 3%Z = 0%Z ->
     returned w = 0%Z /\ consumed_each w = 0%Z /\
     members (general_work 3 [5%Z] in_ o) idle_receiver = idle_receiver /\
     written w = o).
Proof.
  intros in_ o.
  apply (general_work_batch 3 [5%Z] in_ o idle_receiver); simpl; lia.
Defined.

(** What the loop hands to the constellation at a processed index [k]:
    the product of the NCO value at the phase estimate of that moment and
    the input sample. *)
Lemma nco_product_decided (noutput_items : Z) (ninput_items : list Z)
  (in_ : Z -> gr_complex) (o : output_items) (s : receiver) (k : Z) :
  (0 <= k < Z.min (nth 0 ninput_items 0) noutput_items)%Z ->
  let s_k := members (general_work k ninput_items in_ o) s in
  let sample := Cmult (gr_expj (d_phase s_k)) (in_ k) in
  let decision := decision_maker_pe (d_constellation s_k) sample in
  exists w : work_done,
    result (general_work noutput_items ninput_items in_ o) s = Returned w /\
    out (written w) k = (fst decision mod 256)%Z /\
    members (general_work (k + 1) ninput_items in_ o) s =
      members (phase_error_tracking (snd decision)) s_k.
Proof.
  intros Hk. cbv zeta.
  unfold result, members.
  rewrite !general_work_run by lia. cbv zeta. simpl.
  replace (Z.min (nth 0 ninput_items 0%Z) k) with k by lia.
  replace (Z.min (nth 0 ninput_items 0%Z) (k + 1)) with (k + 1)%Z by lia.
  set (n := Z.min (nth 0 ninput_items 0%Z) noutput_items) in *.
  eexists. split; [reflexivity|]. simpl.
  replace (Z.to_nat n) with (Z.to_nat k + (1 + Z.to_nat (n - k - 1)))%nat by lia.
  replace (Z.to_nat (k + 1)) with (Z.to_nat k + 1)%nat by lia.
  rewrite !iterations_app.
  set (r := iterations in_ (Z.to_nat k) 0 s o).
  rewrite Z.add_0_l, Z2Nat.id by lia.
  split.
  - rewrite iterations_out_frame by lia.
    cbn [iterations fst snd]. rewrite loop_body_out, store_same. reflexivity.
  - cbn [iterations fst snd]. rewrite loop_body_members. reflexivity.
Qed.

(** With the NCO value of the spec, the product of the loop is the
    de-rotation of the spec. *)
Lemma nco_product_is_derotation (phase : R) (sample : gr_complex) :
  Cmult (gr_expj phase) sample = spec_derotated sample phase.
Proof.
  unfold spec_derotated, gr_expj, Cmult. simpl.
  rewrite cos_neg, sin_neg. f_equal; ring.
Qed.

(** C1: for every index [k] that a call of [general_work] processes, the
    sample handed to [decision_maker_pe] is the input sample [in[k]]
    de-rotated by the phase estimate of that moment, [in[k] * exp(-j *
    phase)], where [phase] is the estimate after the first [k] samples:
    the symbol written at [k] is the decision on that product, and the
    tracking update that follows is fed its phase error. *)
Theorem samples_derotated_before_decision (noutput_items : Z)
  (ninput_items : list Z) (in_ : Z -> gr_complex) (o : output_items)
  (s : receiver) (k : Z) :
  (0 <= k < Z.min (nth 0 ninput_items 0) noutput_items)%Z ->
  let s_k := members (general_work k ninput_items in_ o) s in
  let derotated := spec_derotated (in_ k) (d_phase s_k) in
  let decision := decision_maker_pe (d_constellation s_k) derotated in
  exists w : work_done,
    result (general_work noutput_items ninput_items in_ o) s = Returned w /\
    out (written w) k = (fst decision mod 256)%Z /\
    members (general_work (k + 1) ninput_items in_ o) s =
      members (phase_error_tracking (snd decision)) s_k.
Proof.
  intros Hk. cbv zeta.
  rewrite <- nco_product_is_derotation.
  exact (nco_product_decided noutput_items ninput_items in_ o s k Hk).
Qed.

Lemma samples_derotated_before_decision_witness :
  let in_ := fun _ : Z => mk_complex 1 0 in
  let o := mk_outputs 1 (fun _ => 0%Z) (fun _ => 0) (fun _ => 0) (fun _ => 0) in
  let s := with_freq (1 / 2) (with_phase 1 idle_receiver) in
  let s_k := members (general_work 1 [5%Z] in_ o) s in
  let derotated := spec_derotated (in_ 1%Z) (d_phase s_k) in
  let decision := decision_maker_pe (d_constellation s_k) derotated in
  exists w : work_done,
    result (general_work 3 [5%Z] in_ o) s = Returned w /\
    out (written w) 1 = (fst decision mod 256)%Z /\
    members (general_work (1 + 1) [5%Z] in_ o) s =
      members (phase_error_tracking (snd decision)) s_k.
Proof.
  intros in_ o s.
  apply (samples_derotated_before_decision 3 [5%Z] in_ o s 1). simpl. lia.
Defined.

(** * Further properties of the receiver *)

(** ** Setters and getters together *)

Lemma in_unit_interval (x : R) :
  0 <= x <= 1 -> Rltb x 0 || Rgtb x 1 = false.
Proof.
  intros Hx. apply orb_false_iff.
  split; [apply Rltb_false | apply Rgtb_false]; lra.
Qed.

(** X1: a gain override within the interval from 0 to 1, both ends
    included, is accepted; the getter then reads back the value given, and
    no member but the overridden gain has changed. *)
Theorem gain_override_read_back (a : R) (s : receiver) :
  0 <= a <= 1 ->
  (set_alpha a ;; get_alpha) s = (Returned a, with_alpha a s) /\
  (set_beta a ;; get_beta) s = (Returned a, with_beta a s).
Proof.
  intros Ha. apply in_unit_interval in Ha.
  unfold set_alpha, set_beta, get_alpha, get_beta. run_method.
  rewrite Ha. simpl. split; reflexivity.
Qed.

Lemma gain_override_read_back_witness :
  (set_alpha 1 ;; get_alpha) idle_receiver = (Returned 1, with_alpha 1 idle_receiver) /\
  (set_beta 1 ;; get_beta) idle_receiver = (Returned 1, with_beta 1 idle_receiver).
Proof.
  apply (gain_override_read_back 1 idle_receiver). lra.
Defined.

(** X2: an accepted [set_loop_bandwidth] or [set_damping_factor] stores its
    argument, which the getter reads back, and re-derives the two gains;
    every other member (the phase and frequency estimates, the search
    range, the constellation and the other tunable) is left as it was, so
    a change of tuning never resets the lock. *)
Theorem tuning_keeps_lock (bw df : R) (s : receiver) :
  0 <= bw ->
  0 <= df <= 1 ->
  let s1 := members (set_loop_bandwidth bw) s in
  let s2 := members (set_damping_factor df) s in
  (result (set_loop_bandwidth bw ;; get_loop_bandwidth) s = Returned bw /\
   s1 = with_beta (d_beta s1) (with_alpha (d_alpha s1) (with_loop_bw bw s))) /\
  (result (set_damping_factor df ;; get_damping_factor) s = Returned df /\
   s2 = with_beta (d_beta s2) (with_alpha (d_alpha s2) (with_damping df s))).
Proof.
  intros Hbw Hdf. cbv zeta.
  apply Rltb_false in Hbw. apply in_unit_interval in Hdf.
  unfold set_loop_bandwidth, set_damping_factor, get_loop_bandwidth,
    get_damping_factor, update_gains.
  run_method. rewrite Hbw, Hdf. simpl.
  repeat split; reflexivity.
Qed.

Lemma tuning_keeps_lock_witness :
  let s1 := members (set_loop_bandwidth 1) idle_receiver in
  let s2 := members (set_damping_factor (1 / 2)) idle_receiver in
  (result (set_loop_bandwidth 1 ;; get_loop_bandwidth) idle_receiver = Returned 1 /\
   s1 = with_beta (d_beta s1) (with_alpha (d_alpha s1) (with_loop_bw 1 idle_receiver))) /\
  (result (set_damping_factor (1 / 2) ;; get_damping_factor) idle_receiver =
     Returned (1 / 2) /\
   s2 = with_beta (d_beta s2)
          (with_alpha (d_alpha s2) (with_damping (1 / 2) idle_receiver))).
Proof.
  apply (tuning_keeps_lock 1 (1 / 2) idle_receiver); lra.
Defined.

(** X3: a manual override of the gains does not outlive the next accepted
    change of bandwidth or damping: [update_gains] overwrites both gains,
    and the receiver ends as if the overrides had never been made. *)
Theorem gain_override_lost_on_retune (a b bw df : R) (s : receiver) :
  0 <= a <= 1 ->
  0 <= b <= 1 ->
  0 <= bw ->
  0 <= df <= 1 ->
  (set_alpha a ;; set_beta b ;; set_loop_bandwidth bw) s = set_loop_bandwidth bw s /\
  (set_alpha a ;; set_beta b ;; set_damping_factor df) s = set_damping_factor df s.
Proof.
  intros Ha Hb Hbw Hdf.
  apply in_unit_interval in Ha. apply in_unit_interval in Hb.
  apply Rltb_false in Hbw. apply in_unit_interval in Hdf.
  unfold set_alpha, set_beta, set_loop_bandwidth, set_damping_factor, update_gains.
  run_method. rewrite Ha, Hb, Hbw, Hdf. simpl. split; reflexivity.
Qed.

Lemma gain_override_lost_on_retune_witness :
  (set_alpha 1 ;; set_beta 1 ;; set_loop_bandwidth 1) idle_receiver =
    set_loop_bandwidth 1 idle_receiver /\
  (set_alpha 1 ;; set_beta 1 ;; set_damping_factor (1 / 2)) idle_receiver =
    set_damping_factor (1 / 2) idle_receiver.
Proof.
  apply (gain_override_lost_on_retune 1 1 1 (1 / 2) idle_receiver); lra.
Defined.

(** ** Wrapped phases and the NCO *)

Lemma cos_whole_turns (x : R) (k : Z) : cos (x + IZR k * M_TWOPI) = cos x.
Proof.
  unfold M_TWOPI, M_PI.
  destruct (Z_le_gt_dec 0 k) as [Hk|Hk].
  - rewrite <- (Z2Nat.id k Hk), <- INR_IZR_INZ.
    rewrite <- (cos_period x (Z.to_nat k)). f_equal. ring.
  - assert (Hn : (0 <= - k)%Z) by lia.
    rewrite <- (cos_period (x + IZR k * (2 * PI)) (Z.to_nat (- k))).
    rewrite INR_IZR_INZ, (Z2Nat.id _ Hn), opp_IZR. f_equal. ring.
Qed.

Lemma sin_whole_turns (x : R) (k : Z) : sin (x + IZR k * M_TWOPI) = sin x.
Proof.
  unfold M_TWOPI, M_PI.
  destruct (Z_le_gt_dec 0 k) as [Hk|Hk].
  - rewrite <- (Z2Nat.id k Hk), <- INR_IZR_INZ.
    rewrite <- (sin_period x (Z.to_nat k)). f_equal. ring.
  - assert (Hn : (0 <= - k)%Z) by lia.
    rewrite <- (sin_period (x + IZR k * (2 * PI)) (Z.to_nat (- k))).
    rewrite INR_IZR_INZ, (Z2Nat.id _ Hn), opp_IZR. f_equal. ring.
Qed.

Lemma wraps_to_same_nco (x p : R) : wraps_to x p -> gr_expj p = gr_expj x.
Proof.
  intros (_ & (k & ->) & _).
  unfold gr_expj. rewrite cos_whole_turns, sin_whole_turns. reflexivity.
Qed.

(** X4: the wrap-around is invisible to the de-rotation.  The NCO value of
    the phase that [set_phase(p)] stores is the NCO value of [p] itself,
    and the NCO value after a tracking update is that of the unwrapped sum
    [phase + frequency_new + alpha*e]. *)
Theorem wrap_keeps_nco_value (p e : R) (s : receiver) :
  gr_expj (d_phase (members (set_phase p) s)) = gr_expj p /\
  gr_expj (d_phase (members (phase_error_tracking e) s)) =
    gr_expj (d_phase s + (d_freq s + d_beta s * e) + d_alpha s * e).
Proof.
  split; apply wraps_to_same_nco.
  - apply set_phase_wraps.
  - apply phase_error_tracking_effect.
Qed.

(** X5: [set_phase] stores a phase between -2*pi and 2*pi as it is, so the
    getter reads it back; and whatever phase a [set_phase] or a tracking
    update has left is a fixed point: setting the phase that [get_phase]
    reports changes nothing. *)
Theorem set_phase_fixed_points (p e : R) (s : receiver) :
  (- M_TWOPI <= p <= M_TWOPI ->
   (set_phase p ;; get_phase) s = (Returned p, with_phase p s)) /\
  (forall s' : receiver,
     s' = members (set_phase p) s \/ s' = members (phase_error_tracking e) s ->
     (p' <- get_phase ;; set_phase p') s' = (Returned tt, s')).
Proof.
  assert (Hfix : forall x t, - M_TWOPI <= x <= M_TWOPI ->
                   set_phase x t = (Returned tt, with_phase x t)).
  { intros x t Hx.
    destruct (set_phase_wraps x t) as (Hr & Hw & Hf).
    destruct Hw as (_ & _ & Hin & _). specialize (Hin Hx).
    unfold result, members in *. destruct (set_phase x t) as [r t']. simpl in *.
    subst r. rewrite Hf, Hin. reflexivity. }
  split.
  - intros Hp. unfold bind at 1. rewrite (Hfix p s Hp). reflexivity.
  - intros s' Hs'.
    assert (Hin : - M_TWOPI <= d_phase s' <= M_TWOPI).
    { destruct Hs' as [-> | ->].
      - apply set_phase_wraps.
      - apply phase_error_tracking_effect. }
    unfold get_phase, bind at 1 2, get, ret.
    rewrite (Hfix _ _ Hin), with_phase_same. reflexivity.
Qed.

(** ** The frequency inside the search range *)

(** X6: on members whose search range is ordered, whatever frequency is
    passed to [set_frequency], the frequency stored lies within the range
    from [min_freq] to [max_freq]; and setting the frequency that
    [get_frequency] then reports changes nothing. *)
Theorem set_frequency_within_search_range (f : R) (s : receiver) :
  d_min_freq s <= d_max_freq s ->
  let s' := members (set_frequency f) s in
  d_min_freq s' <= d_freq s' <= d_max_freq s' /\
  (f' <- get_frequency ;; set_frequency f') s' = (Returned tt, s').
Proof.
  intros Hrange. cbv zeta.
  assert (Hin : forall t x, d_min_freq t <= x <= d_max_freq t ->
                  set_frequency x t = (Returned tt, with_freq x t)).
  { intros t x Hx. unfold set_frequency. run_method.
    assert (H1 : Rgtb x (d_max_freq t) = false) by (apply Rgtb_false; lra).
    assert (H2 : Rltb x (d_min_freq t) = false) by (apply Rltb_false; lra).
    rewrite H1, H2. reflexivity. }
  assert (Hs : d_min_freq (members (set_frequency f) s) <=
               d_freq (members (set_frequency f) s) <=
               d_max_freq (members (set_frequency f) s)).
  { unfold set_frequency. run_method.
    destruct (Rgtb f (d_max_freq s)) eqn:Hgt;
      [apply Rgtb_true in Hgt | apply Rgtb_false in Hgt];
      [|destruct (Rltb f (d_min_freq s)) eqn:Hlt;
        [apply Rltb_true in Hlt | apply Rltb_false in Hlt]];
      simpl; lra. }
  split; [exact Hs|].
  unfold get_frequency, bind at 1 2, get, ret.
  rewrite (Hin _ _ Hs). f_equal. destruct (members (set_frequency f) s); reflexivity.
Qed.

Lemma set_frequency_within_search_range_witness :
  let s' := members (set_frequency 2) idle_receiver in
  d_min_freq s' <= d_freq s' <= d_max_freq s' /\
  (f' <- get_frequency ;; set_frequency f') s' = (Returned tt, s').
Proof.
  apply (set_frequency_within_search_range 2 idle_receiver). simpl. lra.
Defined.

(** ** Construction *)

Lemma default_damping_in_range : 0 <= sqrt 2 / 2 <= 1.
Proof.
  pose proof (sqrt_pos 2) as Hpos.
  pose proof (sqrt_sqrt 2 ltac:(lra)) as Hsq.
  split; [lra|]. nra.
Qed.

Lemma construction_run (raw : receiver) (c : digital_constellation)
  (loop_bw fmin fmax : R) :
  dimensionality c = 1%Z ->
  0 <= loop_bw ->
  digital_make_constellation_receiver_cb raw c loop_bw fmin fmax =
  Returned (members update_gains
              (mk_receiver 0 fmax fmin 0 c 0 (sqrt 2 / 2) loop_bw
                 (d_alpha raw) (d_beta raw))).
Proof.
  intros Hdim Hbw. apply Rltb_false in Hbw.
  unfold digital_make_constellation_receiver_cb, digital_constellation_receiver_cb,
    set_loop_bandwidth.
  run_method. rewrite Hdim. simpl. rewrite Hbw. reflexivity.
Qed.

(** X7: on a constellation of dimension 1 and with a bandwidth that is not
    negative, construction returns a receiver in which the members this
    file names have these values: phase and frequency 0, the search range
    as given, the damping at sqrt(2)/2, the bandwidth as given, and the
    gains derived from them, alpha between 0 and 1 and beta between 0 and
    4.  The four of them that have no initialiser (damping, bandwidth,
    alpha, beta) are assigned in the body before it returns, so what they
    held before does not show in the result. *)
Theorem construction_result (raw : receiver) (c : digital_constellation)
  (loop_bw fmin fmax : R) :
  dimensionality c = 1%Z ->
  0 <= loop_bw ->
  exists obj : receiver,
    digital_make_constellation_receiver_cb raw c loop_bw fmin fmax = Returned obj /\
    d_freq obj = 0 /\ d_phase obj = 0 /\
    d_max_freq obj = fmax /\ d_min_freq obj = fmin /\
    d_constellation obj = c /\ d_current_const_point obj = 0%Z /\
    d_damping obj = sqrt 2 / 2 /\ d_loop_bw obj = loop_bw /\
    obj = members update_gains obj /\
    0 <= d_alpha obj <= 1 /\ 0 <= d_beta obj <= 4 /\
    (forall raw' : receiver,
       digital_make_constellation_receiver_cb raw' c loop_bw fmin fmax = Returned obj).
Proof.
  intros Hdim Hbw.
  eexists. split; [apply construction_run; assumption|].
  do 8 (split; [reflexivity|]).
  split; [reflexivity|].
  pose proof default_damping_in_range as Hd.
  split; [|split].
  - apply (derived_gains (mk_receiver 0 fmax fmin 0 c 0 (sqrt 2 / 2) loop_bw
                            (d_alpha raw) (d_beta raw))); simpl; assumption.
  - apply (derived_gains (mk_receiver 0 fmax fmin 0 c 0 (sqrt 2 / 2) loop_bw
                            (d_alpha raw) (d_beta raw))); simpl; assumption.
  - intros raw'. rewrite construction_run by assumption. reflexivity.
Qed.

Lemma construction_result_witness :
  exists obj : receiver,
    digital_make_constellation_receiver_cb idle_receiver sign_constellation 1 (-1) 1 =
      Returned obj /\
    d_freq obj = 0 /\ d_phase obj = 0 /\
    d_max_freq obj = 1 /\ d_min_freq obj = -1 /\
    d_constellation obj = sign_constellation /\ d_current_const_point obj = 0%Z /\
    d_damping obj = sqrt 2 / 2 /\ d_loop_bw obj = 1 /\
    obj = members update_gains obj /\
    0 <= d_alpha obj <= 1 /\ 0 <= d_beta obj <= 4 /\
    (forall raw' : receiver,
       digital_make_constellation_receiver_cb raw' sign_constellation 1 (-1) 1 =
         Returned obj).
Proof.
  apply (construction_result idle_receiver sign_constellation 1 (-1) 1).
  - reflexivity.
  - lra.
Defined.

(** X8: what construction ends with is decided by two tests, in this
    order.  A constellation whose dimension is not 1 gives
    [std::runtime_error], whatever the bandwidth; a dimension of 1 with a
    negative bandwidth gives [std::out_of_range]; and a receiver is
    returned exactly when the dimension is 1 and the bandwidth is not
    negative. *)
Theorem construction_outcome (raw : receiver) (c : digital_constellation)
  (loop_bw fmin fmax : R) :
  ((exists what,
      digital_make_constellation_receiver_cb raw c loop_bw fmin fmax =
        Thrown (runtime_error what)) <-> dimensionality c <> 1%Z) /\
  ((exists what,
      digital_make_constellation_receiver_cb raw c loop_bw fmin fmax =
        Thrown (out_of_range what)) <-> dimensionality c = 1%Z /\ loop_bw < 0) /\
  ((exists obj,
      digital_make_constellation_receiver_cb raw c loop_bw fmin fmax =
        Returned obj) <-> dimensionality c = 1%Z /\ 0 <= loop_bw).
Proof.
  unfold digital_make_constellation_receiver_cb, digital_constellation_receiver_cb,
    set_loop_bandwidth.
  run_method.
  destruct (Z.eqb_spec (dimensionality c) 1) as [Hdim|Hdim]; simpl;
    [destruct (Rltb loop_bw 0) eqn:Hbw; simpl;
       [apply Rltb_true in Hbw | apply Rltb_false in Hbw]|];
    (split; [|split]); split; intros H;
    try (destruct H as [w Hw]; discriminate);
    try (destruct H as [H1 H2]; first [contradiction | lra]);
    try contradiction;
    try (split; [assumption | lra]);
    try assumption;
    try (eexists; reflexivity).
Qed.

(** ** The stream driver on any counts *)

Lemma general_work_run_any (noutput_items : Z) (ninput_items : list Z)
  (in_ : Z -> gr_complex) (o : output_items) (s : receiver) :
  general_work noutput_items ninput_items in_ o s =
  let n := Z.max 0 (Z.min (nth 0 ninput_items 0%Z) noutput_items) in
  let r := iterations in_ (Z.to_nat n) 0 s o in
  (Returned (mk_work_done n n (snd r)), fst r).
Proof.
  cbv zeta.
  destruct (Z_le_gt_dec 0 (Z.min (nth 0 ninput_items 0%Z) noutput_items)) as [Hn|Hn].
  - rewrite general_work_run by lia.
    cbv zeta. rewrite Z.max_r by exact Hn. reflexivity.
  - unfold general_work. cbv zeta.
    rewrite general_work_loop_exit by lia.
    replace (Z.max 0 (Z.min (nth 0 ninput_items 0%Z) noutput_items)) with 0%Z by lia.
    reflexivity.
Qed.

Lemma loop_body_frame (in_ : Z -> gr_complex) (i : Z) (s : receiver) (o : output_items) :
  let s' := fst (loop_body in_ i s o) in
  s' = with_freq (d_freq s') (with_phase (d_phase s') s) /\
  - M_TWOPI <= d_phase s' <= M_TWOPI.
Proof.
  cbv zeta. rewrite loop_body_members.
  match goal with |- context [phase_error_tracking ?e] =>
    destruct (phase_error_tracking_effect e s) as (_ & Hw & Hs) end.
  split; [exact Hs | apply Hw].
Qed.

Lemma frame_twice (s l x : receiver) :
  l = with_freq (d_freq l) (with_phase (d_phase l) s) ->
  x = with_freq (d_freq x) (with_phase (d_phase x) l) ->
  x = with_freq (d_freq x) (with_phase (d_phase x) s).
Proof. intros Hl Hx. rewrite Hx, Hl. reflexivity. Qed.

Lemma iterations_frame (in_ : Z -> gr_complex) (n : nat) :
  forall (i : Z) (s : receiver) (o : output_items),
    let s' := fst (iterations in_ n i s o) in
    s' = with_freq (d_freq s') (with_phase (d_phase s') s) /\
    (- M_TWOPI <= d_phase s <= M_TWOPI \/ (0 < n)%nat ->
     - M_TWOPI <= d_phase s' <= M_TWOPI).
Proof.
  induction n as [|n IH]; intros i s o; cbv zeta.
  - cbn [iterations fst]. split.
    + destruct s; reflexivity.
    + intros [H|H]; [exact H | lia].
  - cbn [iterations].
    destruct (loop_body_frame in_ i s o) as [Hs Hp].
    specialize (IH (i + 1)%Z (fst (loop_body in_ i s o)) (snd (loop_body in_ i s o))).
    cbv zeta in IH. destruct IH as [IHs IHp].
    split.
    + exact (frame_twice _ _ _ Hs IHs).
    + intros _. apply IHp. left. exact Hp.
Qed.

(** X9: whatever the two counts are, negative ones included,
    [general_work] returns and consumes [max(0, min(available_in,
    noutput_items))] without throwing, and the only members it changes are
    the phase and the frequency: the gains, the tunables, the search range
    and the constellation come out as they went in.  A phase within
    -2*pi and 2*pi at the start is within them at the end, and so is any
    phase once a sample has been processed. *)
Theorem general_work_keeps_configuration (noutput_items : Z) (ninput_items : list Z)
  (in_ : Z -> gr_complex) (o : output_items) (s : receiver) :
  let n := Z.max 0 (Z.min (nth 0 ninput_items 0%Z) noutput_items) in
  let s' := members (general_work noutput_items ninput_items in_ o) s in
  (exists w : work_done,
     result (general_work noutput_items ninput_items in_ o) s = Returned w /\
     returned w = n /\ consumed_each w = n) /\
  s' = with_freq (d_freq s') (with_phase (d_phase s') s) /\
  (- M_TWOPI <= d_phase s <= M_TWOPI \/ (0 < n)%Z ->
   - M_TWOPI <= d_phase s' <= M_TWOPI).
Proof.
  cbv zeta. unfold result, members. rewrite general_work_run_any. cbv zeta. simpl.
  set (n := Z.max 0 (Z.min (nth 0 ninput_items 0%Z) noutput_items)).
  destruct (iterations_frame in_ (Z.to_nat n) 0 s o) as [Hs Hp].
  split; [eexists; repeat split; reflexivity|].
  split; [exact Hs|].
  intros H. apply Hp. destruct H as [H|H]; [left; exact H | right; lia].
Qed.

(** ** The diagnostic streams *)

Lemma loop_body_size (in_ : Z -> gr_complex) (i : Z) (s : receiver) (o : output_items) :
  size (snd (loop_body in_ i s o)) = size o.
Proof.
  unfold loop_body. cbv zeta. simpl.
  destruct (Nat.eqb (size o) 4); reflexivity.
Qed.

Lemma loop_body_diagnostics_on (in_ : Z -> gr_complex) (i : Z)
  (s : receiver) (o : output_items) :
  size o = 4%nat ->
  let o' := snd (loop_body in_ i s o) in
  out_err o' =
    store (out_err o) i
      (snd (decision_maker_pe (d_constellation s) (downconverted s (in_ i)))) /\
  out_phase o' = store (out_phase o) i (d_phase (fst (loop_body in_ i s o))) /\
  out_freq o' = store (out_freq o) i (d_freq (fst (loop_body in_ i s o))).
Proof.
  intros Hsize. unfold loop_body. cbv zeta. simpl.
  rewrite Hsize. simpl. repeat split; reflexivity.
Qed.

Lemma loop_body_diagnostics_off (in_ : Z -> gr_complex) (i : Z)
  (s : receiver) (o : output_items) :
  size o <> 4%nat ->
  let o' := snd (loop_body in_ i s o) in
  out_err o' = out_err o /\ out_phase o' = out_phase o /\ out_freq o' = out_freq o.
Proof.
  intros Hsize. unfold loop_body. cbv zeta. simpl.
  destruct (Nat.eqb_spec (size o) 4) as [H|_]; [contradiction|].
  simpl. repeat split; reflexivity.
Qed.

Lemma iterations_size (in_ : Z -> gr_complex) (n : nat) :
  forall (i : Z) (s : receiver) (o : output_items),
    size (snd (iterations in_ n i s o)) = size o.
Proof.
  induction n as [|n IH]; intros i s o; [reflexivity|].
  cbn [iterations]. rewrite IH. apply loop_body_size.
Qed.

Lemma iterations_diagnostics_off (in_ : Z -> gr_complex) (n : nat) :
  forall (i : Z) (s : receiver) (o : output_items),
    size o <> 4%nat ->
    let o' := snd (iterations in_ n i s o) in
    out_err o' = out_err o /\ out_phase o' = out_phase o /\ out_freq o' = out_freq o.
Proof.
  induction n as [|n IH]; intros i s o Hsize; cbv zeta.
  - repeat split; reflexivity.
  - cbn [iterations].
    destruct (loop_body_diagnostics_off in_ i s o Hsize) as (H1 & H2 & H3).
    specialize (IH (i + 1)%Z (fst (loop_body in_ i s o)) (snd (loop_body in_ i s o))).
    rewrite loop_body_size in IH. destruct (IH Hsize) as (I1 & I2 & I3).
    rewrite I1, I2, I3. repeat split; assumption.
Qed.

Lemma iterations_diagnostics_frame (in_ : Z -> gr_complex) (n : nat) :
  forall (i : Z) (s : receiver) (o : output_items) (k : Z),
    (k < i \/ i + Z.of_nat n <= k)%Z ->
    let o' := snd (iterations in_ n i s o) in
    out_err o' k = out_err o k /\ out_phase o' k = out_phase o k /\
    out_freq o' k = out_freq o k.
Proof.
  induction n as [|n IH]; intros i s o k Hk; cbv zeta.
  - repeat split; reflexivity.
  - cbn [iterations].
    assert (Hk' : (k < i + 1 \/ i + 1 + Z.of_nat n <= k)%Z) by lia.
    destruct (IH (i + 1)%Z (fst (loop_body in_ i s o)) (snd (loop_body in_ i s o)) k Hk')
      as (I1 & I2 & I3).
    rewrite I1, I2, I3.
    destruct (Nat.eq_dec (size o) 4) as [Hsize|Hsize].
    + destruct (loop_body_diagnostics_on in_ i s o Hsize) as (H1 & H2 & H3).
      rewrite H1, H2, H3. rewrite !store_other by lia. repeat split; reflexivity.
    + destruct (loop_body_diagnostics_off in_ i s o Hsize) as (H1 & H2 & H3).
      rewrite H1, H2, H3. repeat split; reflexivity.
Qed.

(** X10: with four output streams connected, the three diagnostic streams
    go in step with the symbol stream: at every processed index [k] the
    error stream holds the phase error of the decision on sample [k], and
    the phase and frequency streams hold the estimates as they are right
    after the tracking update on that sample. *)
Theorem diagnostics_follow_symbols (noutput_items : Z) (ninput_items : list Z)
  (in_ : Z -> gr_complex) (o : output_items) (s : receiver) (k : Z) :
  size o = 4%nat ->
  (0 <= k < Z.min (nth 0 ninput_items 0) noutput_items)%Z ->
  let s_k := members (general_work k ninput_items in_ o) s in
  let s_k1 := members (general_work (k + 1) ninput_items in_ o) s in
  let decision := decision_maker_pe (d_constellation s_k) (downconverted s_k (in_ k)) in
  exists w : work_done,
    result (general_work noutput_items ninput_items in_ o) s = Returned w /\
    out_err (written w) k = snd decision /\
    out_phase (written w) k = d_phase s_k1 /\
    out_freq (written w) k = d_freq s_k1.
Proof.
  intros Hsize Hk. cbv zeta.
  unfold result, members.
  rewrite !general_work_run by lia. cbv zeta. simpl.
  replace (Z.min (nth 0 ninput_items 0%Z) k) with k by lia.
  replace (Z.min (nth 0 ninput_items 0%Z) (k + 1)) with (k + 1)%Z by lia.
  set (n := Z.min (nth 0 ninput_items 0%Z) noutput_items) in *.
  eexists. split; [reflexivity|]. simpl.
  replace (Z.to_nat n) with (Z.to_nat k + (1 + Z.to_nat (n - k - 1)))%nat by lia.
  replace (Z.to_nat (k + 1)) with (Z.to_nat k + 1)%nat by lia.
  rewrite !iterations_app.
  set (r := iterations in_ (Z.to_nat k) 0 s o).
  rewrite Z.add_0_l, Z2Nat.id by lia.
  assert (Hr : size (snd r) = 4%nat) by (unfold r; rewrite iterations_size; exact Hsize).
  match goal with |- context [iterations in_ (Z.to_nat (n - k - 1)) ?i ?a ?b] =>
    destruct (iterations_diagnostics_frame in_ (Z.to_nat (n - k - 1)) i a b k
                ltac:(lia)) as (F1 & F2 & F3) end.
  rewrite F1, F2, F3.
  cbn [iterations fst snd].
  destruct (loop_body_diagnostics_on in_ k (fst r) (snd r) Hr) as (H1 & H2 & H3).
  rewrite H1, H2, H3, !store_same.
  repeat split; reflexivity.
Qed.

Lemma diagnostics_follow_symbols_witness :
  let in_ := fun _ : Z => mk_complex 1 0 in
  let o := mk_outputs 4 (fun _ => 0%Z) (fun _ => 0) (fun _ => 0) (fun _ => 0) in
  let s_k := members (general_work 1 [5%Z] in_ o) idle_receiver in
  let s_k1 := members (general_work (1 + 1) [5%Z] in_ o) idle_receiver in
  let decision := decision_maker_pe (d_constellation s_k) (downconverted s_k (in_ 1%Z)) in
  exists w : work_done,
    result (general_work 3 [5%Z] in_ o) idle_receiver = Returned w /\
    out_err (written w) 1 = snd decision /\
    out_phase (written w) 1 = d_phase s_k1 /\
    out_freq (written w) 1 = d_freq s_k1.
Proof.
  intros in_ o.
  apply (diagnostics_follow_symbols 3 [5%Z] in_ o idle_receiver 1).
  - reflexivity.
  - simpl. lia.
Defined.

(** X11: the diagnostic buffers are written only when exactly four output
    streams are connected: with any other number they come out as they
    went in.  With four, as with any number, no buffer is written outside
    the processed indices, and the number of streams is not changed. *)
Theorem diagnostics_gated_by_stream_count (noutput_items : Z) (ninput_items : list Z)
  (in_ : Z -> gr_complex) (o : output_items) (s : receiver) :
  let n := Z.max 0 (Z.min (nth 0 ninput_items 0%Z) noutput_items) in
  exists w : work_done,
    result (general_work noutput_items ninput_items in_ o) s = Returned w /\
    size (written w) = size o /\
    (size o <> 4%nat ->
     out_err (written w) = out_err o /\ out_phase (written w) = out_phase o /\
     out_freq (written w) = out_freq o) /\
    (forall k : Z, ~ (0 <= k < n)%Z ->
       out (written w) k = out o k /\ out_err (written w) k = out_err o k /\
       out_phase (written w) k = out_phase o k /\ out_freq (written w) k = out_freq o k).
Proof.
  cbv zeta. unfold result. rewrite general_work_run_any. cbv zeta. simpl.
  set (n := Z.max 0 (Z.min (nth 0 ninput_items 0%Z) noutput_items)).
  eexists. split; [reflexivity|]. simpl.
  split; [apply iterations_size|].
  split.
  - intros Hsize. apply iterations_diagnostics_off. exact Hsize.
  - intros k Hk.
    assert (Hk' : (k < 0 \/ 0 + Z.of_nat (Z.to_nat n) <= k)%Z) by lia.
    split; [apply iterations_out_frame; exact Hk'|].
    apply iterations_diagnostics_frame. exact Hk'.
Qed.

(** ** What a call reads, and calls in a row *)

Lemma iterations_ext (in_ in' : Z -> gr_complex) (n : nat) :
  forall (i : Z) (s : receiver) (o : output_items),
    (forall k : Z, (i <= k < i + Z.of_nat n)%Z -> in_ k = in' k) ->
    iterations in_ n i s o = iterations in' n i s o.
Proof.
  induction n as [|n IH]; intros i s o Hin; [reflexivity|].
  cbn [iterations].
  assert (Hbody : loop_body in_ i s o = loop_body in' i s o).
  { unfold loop_body. rewrite (Hin i) by lia. reflexivity. }
  rewrite Hbody. apply IH. intros k Hk. apply Hin. lia.
Qed.

(** X12: a call reads no input sample but those it processes: two input
    buffers that hold the same samples at the indices below
    [min(available_in, noutput_items)] give the same return value, the same
    members and the same output buffers, whatever lies beyond. *)
Theorem general_work_reads_processed_samples_only (noutput_items : Z)
  (ninput_items : list Z) (in_ in' : Z -> gr_complex) (o : output_items)
  (s : receiver) :
  (forall k : Z,
     (0 <= k < Z.min (nth 0 ninput_items 0%Z) noutput_items)%Z -> in_ k = in' k) ->
  general_work noutput_items ninput_items in_ o s =
  general_work noutput_items ninput_items in' o s.
Proof.
  intros Hin. rewrite !general_work_run_any. cbv zeta.
  rewrite (iterations_ext in_ in'); [reflexivity|].
  intros k Hk. apply Hin. lia.
Qed.

Lemma general_work_reads_processed_samples_only_witness :
  let o := mk_outputs 1 (fun _ => 0%Z) (fun _ => 0) (fun _ => 0) (fun _ => 0) in
  general_work 3 [5%Z] (fun _ => mk_complex 1 0) o idle_receiver =
  general_work 3 [5%Z]
    (fun k => if (k <? 3)%Z then mk_complex 1 0 else mk_complex 0 1) o idle_receiver.
Proof.
  intros o.
  apply (general_work_reads_processed_samples_only 3 [5%Z]
           (fun _ => mk_complex 1 0)
           (fun k => if (k <? 3)%Z then mk_complex 1 0 else mk_complex 0 1)
           o idle_receiver).
  intros k Hk. simpl in Hk.
  destruct (Z.ltb_spec k 3) as [_|Hge]; [reflexivity | lia].
Defined.

Lemma same_items_refl (o : output_items) : same_items o o.
Proof. split; [reflexivity|]. intros k. repeat split; reflexivity. Qed.

Lemma loop_body_advance (in_ : Z -> gr_complex) (a i : Z) (s : receiver)
  (o o' : output_items) :
  same_items o' (advance_outputs o a) ->
  fst (loop_body (advance in_ a) i s o') = fst (loop_body in_ (i + a) s o) /\
  same_items (snd (loop_body (advance in_ a) i s o'))
    (advance_outputs (snd (loop_body in_ (i + a) s o)) a).
Proof.
  intros [Hsize Hitems]. simpl in Hsize.
  split; [reflexivity|].
  split.
  - unfold advance_outputs. cbn [size]. rewrite !loop_body_size. exact Hsize.
  - intros k. destruct (Hitems k) as (H0 & H1 & H2 & H3). simpl in H0, H1, H2, H3.
    unfold loop_body. cbv zeta. simpl. rewrite Hsize.
    unfold advance at 1. 
    destruct (Nat.eqb (size o) 4); simpl; unfold advance, store;
      destruct (Z.eqb_spec k i); destruct (Z.eqb_spec (k + a) (i + a)); try lia;
      repeat split; solve [reflexivity | assumption].
Qed.

Lemma iterations_advance (in_ : Z -> gr_complex) (a : Z) (n : nat) :
  forall (i : Z) (s : receiver) (o o' : output_items),
    same_items o' (advance_outputs o a) ->
    fst (iterations (advance in_ a) n i s o') = fst (iterations in_ n (i + a) s o) /\
    same_items (snd (iterations (advance in_ a) n i s o'))
      (advance_outputs (snd (iterations in_ n (i + a) s o)) a).
Proof.
  induction n as [|n IH]; intros i s o o' Hsame.
  - split; [reflexivity | exact Hsame].
  - cbn [iterations].
    destruct (loop_body_advance in_ a i s o o' Hsame) as [Hs Ho].
    rewrite Hs.
    replace (i + a + 1)%Z with (i + 1 + a)%Z by lia.
    apply IH. exact Ho.
Qed.

(** X13: processing a stream in two calls is processing it in one.  When a
    first call takes [n1] samples and a second call goes on from there,
    with its input and output buffers starting [n1] items further on and
    the counts lowered by [n1], the two return values add up to that of
    the single call, the members end the same, and every output buffer
    holds the same items. *)
Theorem general_work_in_two_calls (noutput_items : Z) (ninput_items : list Z)
  (in_ : Z -> gr_complex) (o : output_items) (s : receiver) (n1 : Z) :
  (0 <= n1 <= Z.min (nth 0 ninput_items 0%Z) noutput_items)%Z ->
  let first := general_work n1 ninput_items in_ o in
  let second w1 :=
    general_work (noutput_items - n1) [(nth 0 ninput_items 0 - n1)%Z]
      (advance in_ n1) (advance_outputs (written w1) n1) in
  let single := general_work noutput_items ninput_items in_ o in
  exists w1 w2 w : work_done,
    result first s = Returned w1 /\
    result (second w1) (members first s) = Returned w2 /\
    result single s = Returned w /\
    (returned w1 + returned w2 = returned w)%Z /\
    members (second w1) (members first s) = members single s /\
    same_items (written w2) (advance_outputs (written w) n1).
Proof.
  intros Hn1. cbv zeta. unfold result, members.
  set (a := nth 0 ninput_items 0%Z) in *.
  set (n := Z.min a noutput_items) in *.
  set (r1 := iterations in_ (Z.to_nat n1) 0 s o).
  assert (H1 : general_work n1 ninput_items in_ o s =
               (Returned (mk_work_done n1 n1 (snd r1)), fst r1)).
  { rewrite general_work_run by (fold a; lia). cbv zeta. fold a.
    replace (Z.min a n1) with n1 by lia. reflexivity. }
  assert (H : general_work noutput_items ninput_items in_ o s =
              (Returned (mk_work_done n n (snd (iterations in_ (Z.to_nat n) 0 s o))),
               fst (iterations in_ (Z.to_nat n) 0 s o))).
  { rewrite general_work_run by (fold a; lia). reflexivity. }
  set (r2 := iterations (advance in_ n1) (Z.to_nat (n - n1)) 0 (fst r1)
               (advance_outputs (snd r1) n1)).
  assert (H2 : general_work (noutput_items - n1) [(a - n1)%Z] (advance in_ n1)
                 (advance_outputs (snd r1) n1) (fst r1) =
               (Returned (mk_work_done (n - n1) (n - n1) (snd r2)), fst r2)).
  { rewrite general_work_run by (simpl; lia). cbv zeta.
    change (nth 0 [(a - n1)%Z] 0%Z) with (a - n1)%Z.
    replace (Z.min (a - n1) (noutput_items - n1)) with (n - n1)%Z by lia.
    reflexivity. }
  rewrite H1, H. cbn [fst snd].
  exists (mk_work_done n1 n1 (snd r1)), (mk_work_done (n - n1) (n - n1) (snd r2)),
    (mk_work_done n n (snd (iterations in_ (Z.to_nat n) 0 s o))).
  cbn [written returned]. rewrite H2. cbn [fst snd].
  split; [reflexivity|]. split; [reflexivity|]. split; [reflexivity|].
  split; [lia|].
  replace (Z.to_nat n) with (Z.to_nat n1 + Z.to_nat (n - n1))%nat by lia.
  rewrite iterations_app. fold r1.
  rewrite Z.add_0_l, Z2Nat.id by lia.
  destruct (iterations_advance in_ n1 (Z.to_nat (n - n1)) 0 (fst r1) (snd r1)
              (advance_outputs (snd r1) n1) (same_items_refl _)) as [Hs Ho].
  rewrite Z.add_0_l in Hs, Ho.
  split; [exact Hs | exact Ho].
Qed.

Lemma general_work_in_two_calls_witness :
  let in_ := fun _ : Z => mk_complex 1 0 in
  let o := mk_outputs 4 (fun _ => 0%Z) (fun _ => 0) (fun _ => 0) (fun _ => 0) in
  let first := general_work 2 [5%Z] in_ o in
  let second w1 :=
    general_work (3 - 2) [(nth 0 [5%Z] 0 - 2)%Z]
      (advance in_ 2) (advance_outputs (written w1) 2) in
  let single := general_work 3 [5%Z] in_ o in
  exists w1 w2 w : work_done,
    result first idle_receiver = Returned w1 /\
    result (second w1) (members first idle_receiver) = Returned w2 /\
    result single idle_receiver = Returned w /\
    (returned w1 + returned w2 = returned w)%Z /\
    members (second w1) (members first idle_receiver) = members single idle_receiver /\
    same_items (written w2) (advance_outputs (written w) 2).
Proof.
  intros in_ o.
  apply (general_work_in_two_calls 3 [5%Z] in_ o idle_receiver 2).
  simpl. lia.
Defined.

(** ** When the gains vanish *)

Lemma quotient_zero (x d : R) : 0 < d -> (x / d = 0 <-> x = 0).
Proof.
  intros Hd. split.
  - intros H. apply (Rmult_eq_compat_r d) in H.
    unfold Rdiv in H. rewrite Rmult_assoc, Rinv_l, Rmult_1_r, Rmult_0_l in H by lra.
    exact H.
  - intros ->. unfold Rdiv. ring.
Qed.

(** X14: for a stored damping between 0 and 1 and a stored bandwidth that
    is not negative, the derived beta is 0 exactly when the bandwidth is
    0, the derived alpha is 0 exactly when the damping or the bandwidth is
    0, and the two gains are in the ratio of damping to bandwidth:
    [beta * damping = alpha * bandwidth]. *)
Theorem derived_gains_vanish (s : receiver) :
  0 <= d_damping s <= 1 ->
  0 <= d_loop_bw s ->
  let s' := members update_gains s in
  (d_beta s' = 0 <-> d_loop_bw s = 0) /\
  (d_alpha s' = 0 <-> d_damping s = 0 \/ d_loop_bw s = 0) /\
  d_beta s' * d_damping s = d_alpha s' * d_loop_bw s.
Proof.
  intros Hd Hb. cbv zeta.
  unfold members. rewrite update_gains_run. simpl.
  pose proof (denom_at_least_one _ _ Hd Hb) as Hden.
  split; [|split].
  - rewrite quotient_zero by lra. split; intros H; [nra | rewrite H; ring].
  - rewrite quotient_zero by lra. split.
    + intros H.
      destruct (Rmult_integral _ _ H) as [H1|H1]; [|right; exact H1].
      left. lra.
    + intros [H|H]; rewrite H; ring.
  - field. lra.
Qed.

Lemma derived_gains_vanish_witness :
  let s := with_damping (1 / 2) (with_loop_bw 1 idle_receiver) in
  let s' := members update_gains s in
  (d_beta s' = 0 <-> d_loop_bw s = 0) /\
  (d_alpha s' = 0 <-> d_damping s = 0 \/ d_loop_bw s = 0) /\
  d_beta s' * d_damping s = d_alpha s' * d_loop_bw s.
Proof.
  apply (derived_gains_vanish (with_damping (1 / 2) (with_loop_bw 1 idle_receiver)));
    simpl; lra.
Defined.

Lemma gr_branchless_clip_zero (clip : R) : gr_branchless_clip 0 clip = 0.
Proof.
  unfold gr_branchless_clip. cbv zeta.
  replace (0 - clip) with (- clip) by ring.
  rewrite Rplus_0_l, Rabs_Ropp. ring.
Qed.

Lemma tracking_at_rest (e : R) (s : receiver) :
  d_alpha s = 0 -> d_beta s = 0 -> d_freq s = 0 ->
  - M_TWOPI <= d_phase s <= M_TWOPI ->
  members (phase_error_tracking e) s = s.
Proof.
  intros Ha Hb Hf Hp.
  destruct (phase_error_tracking_effect e s) as (Hf' & Hw & Hs).
  rewrite Ha, Hb, Hf in Hw.
  replace (d_phase s + (0 + 0 * e) + 0 * e) with (d_phase s) in Hw by ring.
  destruct Hw as (_ & _ & Hin & _). specialize (Hin Hp).
  rewrite Hb, Hf in Hf'.
  replace (0 + 0 * e) with 0 in Hf' by ring.
  rewrite gr_branchless_clip_zero in Hf'.
  rewrite Hs, Hf', Hin, <- Hf. destruct s; reflexivity.
Qed.

Lemma iterations_at_rest (in_ : Z -> gr_complex) (s : receiver) (n : nat) :
  d_alpha s = 0 -> d_beta s = 0 -> d_freq s = 0 ->
  - M_TWOPI <= d_phase s <= M_TWOPI ->
  forall (i : Z) (o : output_items),
    fst (iterations in_ n i s o) = s /\
    forall k : Z, (i <= k < i + Z.of_nat n)%Z ->
      out (snd (iterations in_ n i s o)) k =
        (fst (decision_maker_pe (d_constellation s) (downconverted s (in_ k)))
         mod 256)%Z.
Proof.
  intros Ha Hb Hf Hp.
  induction n as [|n IH]; intros i o.
  - split; [reflexivity | intros k Hk; lia].
  - cbn [iterations].
    assert (Hrest : fst (loop_body in_ i s o) = s).
    { rewrite loop_body_members. apply tracking_at_rest; assumption. }
    rewrite Hrest.
    destruct (IH (i + 1)%Z (snd (loop_body in_ i s o))) as [IHs IHo].
    split; [exact IHs|].
    intros k Hk.
    destruct (Z.eq_dec k i) as [->|Hne].
    + rewrite iterations_out_frame by lia.
      rewrite loop_body_out, store_same. reflexivity.
    + apply IHo. lia.
Qed.

Lemma downconverted_at_phase_zero (s : receiver) (x : gr_complex) :
  d_phase s = 0 -> downconverted s x = x.
Proof.
  intros Hp. unfold downconverted, gr_expj, Cmult. cbv zeta. simpl.
  rewrite Hp, cos_0, sin_0. destruct x as [re im]. simpl. f_equal; ring.
Qed.

(** X15: a receiver constructed with bandwidth 0 runs open loop.  Both its
    gains are 0, so no call of [general_work] changes any of its members,
    whatever phase errors the constellation reports, and every symbol it
    writes is the constellation's decision on the input sample as it
    came. *)
Theorem zero_bandwidth_runs_open_loop (raw : receiver) (c : digital_constellation)
  (fmin fmax : R) (noutput_items : Z) (ninput_items : list Z)
  (in_ : Z -> gr_complex) (o : output_items) :
  dimensionality c = 1%Z ->
  exists obj : receiver,
    digital_make_constellation_receiver_cb raw c 0 fmin fmax = Returned obj /\
    d_alpha obj = 0 /\ d_beta obj = 0 /\
    members (general_work noutput_items ninput_items in_ o) obj = obj /\
    exists w : work_done,
      result (general_work noutput_items ninput_items in_ o) obj = Returned w /\
      forall k : Z,
        (0 <= k < Z.min (nth 0 ninput_items 0%Z) noutput_items)%Z ->
        out (written w) k = (fst (decision_maker_pe c (in_ k)) mod 256)%Z.
Proof.
  intros Hdim.
  eexists. split; [apply construction_run; [exact Hdim | lra]|].
  set (obj := members update_gains _).
  assert (Ha : d_alpha obj = 0).
  { unfold obj, members. rewrite update_gains_run. simpl. unfold Rdiv. ring. }
  assert (Hb : d_beta obj = 0).
  { unfold obj, members. rewrite update_gains_run. simpl. unfold Rdiv. ring. }
  assert (Hf : d_freq obj = 0) by reflexivity.
  assert (Hp0 : d_phase obj = 0) by reflexivity.
  assert (Hp : - M_TWOPI <= d_phase obj <= M_TWOPI).
  { rewrite Hp0. pose proof M_TWOPI_pos. lra. }
  split; [exact Ha|]. split; [exact Hb|].
  unfold result, members. rewrite general_work_run_any. cbv zeta. cbn [fst snd].
  set (n := Z.max 0 (Z.min (nth 0 ninput_items 0%Z) noutput_items)).
  destruct (iterations_at_rest in_ obj (Z.to_nat n) Ha Hb Hf Hp 0 o) as [Hs Ho].
  split; [exact Hs|].
  eexists. split; [reflexivity|]. cbn [written].
  intros k Hk. rewrite Ho by lia.
  rewrite downconverted_at_phase_zero by exact Hp0. reflexivity.
Qed.

Lemma zero_bandwidth_runs_open_loop_witness :
  let in_ := fun _ : Z => mk_complex 0 1 in
  let o := mk_outputs 1 (fun _ => 0%Z) (fun _ => 0) (fun _ => 0) (fun _ => 0) in
  exists obj : receiver,
    digital_make_constellation_receiver_cb idle_receiver sign_constellation 0 (-1) 1 =
      Returned obj /\
    d_alpha obj = 0 /\ d_beta obj = 0 /\
    members (general_work 3 [5%Z] in_ o) obj = obj /\
    exists w : work_done,
      result (general_work 3 [5%Z] in_ o) obj = Returned w /\
      forall k : Z,
        (0 <= k < Z.min (nth 0 [5%Z] 0%Z) 3)%Z ->
        out (written w) k = (fst (decision_maker_pe sign_constellation (in_ k)) mod 256)%Z.
Proof.
  intros in_ o.
  apply (zero_bandwidth_runs_open_loop idle_receiver sign_constellation (-1) 1
           3 [5%Z] in_ o).
  reflexivity.
Defined.

(** ** The phase counts modulo whole turns *)

Lemma turned_downconverted (s s' : receiver) (x : gr_complex) :
  turned s s' -> downconverted s' x = downconverted s x.
Proof.
  intros [_ [k Hk]]. unfold downconverted, gr_expj. cbv zeta.
  rewrite Hk, cos_whole_turns, sin_whole_turns. reflexivity.
Qed.

Lemma turned_frame (s s' a b : receiver) (p fa pa pb : R) :
  s' = with_phase p s ->
  a = with_freq fa (with_phase pa s) ->
  b = with_freq fa (with_phase pb s') ->
  b = with_phase (d_phase b) a.
Proof. intros -> -> ->. reflexivity. Qed.

Lemma turned_tracking (e : R) (s s' : receiver) :
  turned s s' ->
  turned (members (phase_error_tracking e) s) (members (phase_error_tracking e) s').
Proof.
  intros [Hs [k Hk]].
  destruct (phase_error_tracking_effect e s) as (Hf1 & Hw1 & Hs1).
  destruct (phase_error_tracking_effect e s') as (Hf2 & Hw2 & Hs2).
  destruct Hw1 as (_ & (k1 & Hk1) & _). destruct Hw2 as (_ & (k2 & Hk2) & _).
  assert (Hfs : d_freq s' = d_freq s) by (rewrite Hs; reflexivity).
  assert (Hbs : d_beta s' = d_beta s) by (rewrite Hs; reflexivity).
  assert (Has : d_alpha s' = d_alpha s) by (rewrite Hs; reflexivity).
  assert (Hms : d_max_freq s' = d_max_freq s) by (rewrite Hs; reflexivity).
  split.
  - assert (Hff : d_freq (members (phase_error_tracking e) s') =
                  d_freq (members (phase_error_tracking e) s))
      by (rewrite Hf2, Hf1, Hfs, Hbs, Hms; reflexivity).
    rewrite Hff in Hs2.
    exact (turned_frame _ _ _ _ _ _ _ _ Hs Hs1 Hs2).
  - exists (k + k2 - k1)%Z.
    rewrite Hk2, Hk1, Hk, Hfs, Hbs, Has, minus_IZR, plus_IZR. ring.
Qed.

Lemma turned_loop_body (in_ : Z -> gr_complex) (i : Z) (s s' : receiver)
  (o o' : output_items) :
  turned s s' ->
  size o = size o' -> out o = out o' ->
  out_err o = out_err o' -> out_freq o = out_freq o' ->
  turned (fst (loop_body in_ i s o)) (fst (loop_body in_ i s' o')) /\
  size (snd (loop_body in_ i s o)) = size (snd (loop_body in_ i s' o')) /\
  out (snd (loop_body in_ i s o)) = out (snd (loop_body in_ i s' o')) /\
  out_err (snd (loop_body in_ i s o)) = out_err (snd (loop_body in_ i s' o')) /\
  out_freq (snd (loop_body in_ i s o)) = out_freq (snd (loop_body in_ i s' o')).
Proof.
  intros Ht Hsize Hout Herr Hfreq.
  assert (Hc : d_constellation s' = d_constellation s)
    by (destruct Ht as [Hs _]; rewrite Hs; reflexivity).
  pose proof (turned_downconverted s s' (in_ i) Ht) as Hd.
  assert (Hst : turned (fst (loop_body in_ i s o)) (fst (loop_body in_ i s' o'))).
  { rewrite !loop_body_members, Hc, Hd. apply turned_tracking. exact Ht. }
  split; [exact Hst|].
  rewrite !loop_body_size, !loop_body_out, Hc, Hd, Hout.
  split; [exact Hsize|]. split; [reflexivity|].
  destruct (Nat.eq_dec (size o) 4) as [H4|H4].
  - destruct (loop_body_diagnostics_on in_ i s o H4) as (E1 & _ & E3).
    destruct (loop_body_diagnostics_on in_ i s' o' ltac:(congruence)) as (E1' & _ & E3').
    rewrite E1, E1', E3, E3', Hc, Hd, Herr, Hfreq.
    destruct Hst as [Hst _]. rewrite Hst. split; reflexivity.
  - destruct (loop_body_diagnostics_off in_ i s o H4) as (E1 & _ & E3).
    destruct (loop_body_diagnostics_off in_ i s' o' ltac:(congruence)) as (E1' & _ & E3').
    rewrite E1, E1', E3, E3'. split; assumption.
Qed.

Lemma turned_iterations (in_ : Z -> gr_complex) (n : nat) :
  forall (i : Z) (s s' : receiver) (o o' : output_items),
    turned s s' ->
    size o = size o' -> out o = out o' ->
    out_err o = out_err o' -> out_freq o = out_freq o' ->
    turned (fst (iterations in_ n i s o)) (fst (iterations in_ n i s' o')) /\
    out (snd (iterations in_ n i s o)) = out (snd (iterations in_ n i s' o')) /\
    out_err (snd (iterations in_ n i s o)) = out_err (snd (iterations in_ n i s' o')) /\
    out_freq (snd (iterations in_ n i s o)) = out_freq (snd (iterations in_ n i s' o')).
Proof.
  induction n as [|n IH]; intros i s s' o o' Ht Hsize Hout Herr Hfreq.
  - cbn [iterations fst snd]. repeat split; assumption || apply Ht.
  - cbn [iterations].
    destruct (turned_loop_body in_ i s s' o o' Ht Hsize Hout Herr Hfreq)
      as (B0 & B1 & B2 & B3 & B4).
    apply IH; assumption.
Qed.

(** X16: the receiver depends on its phase only modulo 2*pi.  Started from
    a phase moved by any whole number of turns, [general_work] returns the
    same count, writes the same symbols, the same phase errors and the
    same frequencies, and ends with the same members but for the phase,
    which again differs by whole turns. *)
Theorem general_work_modulo_whole_turns (noutput_items : Z) (ninput_items : list Z)
  (in_ : Z -> gr_complex) (o : output_items) (s : receiver) (k : Z) :
  let s' := with_phase (d_phase s + IZR k * M_TWOPI) s in
  exists w w' : work_done,
    result (general_work noutput_items ninput_items in_ o) s = Returned w /\
    result (general_work noutput_items ninput_items in_ o) s' = Returned w' /\
    returned w' = returned w /\
    out (written w') = out (written w) /\
    out_err (written w') = out_err (written w) /\
    out_freq (written w') = out_freq (written w) /\
    turned (members (general_work noutput_items ninput_items in_ o) s)
           (members (general_work noutput_items ninput_items in_ o) s').
Proof.
  cbv zeta. unfold result, members. rewrite !general_work_run_any. cbv zeta.
  cbn [fst snd].
  set (n := Z.max 0 (Z.min (nth 0 ninput_items 0%Z) noutput_items)).
  assert (Ht : turned s (with_phase (d_phase s + IZR k * M_TWOPI) s)).
  { split; [reflexivity | exists k; reflexivity]. }
  destruct (turned_iterations in_ (Z.to_nat n) 0 s _ o o Ht
              eq_refl eq_refl eq_refl eq_refl) as (T0 & T1 & T2 & T3).
  do 2 eexists.
  split; [reflexivity|]. split; [reflexivity|]. cbn [returned written].
  split; [reflexivity|].
  split; [symmetry; exact T1|]. split; [symmetry; exact T2|].
  split; [symmetry; exact T3 | exact T0].
Qed.

(** ** A reversed search range *)

(** X17: nothing checks that [min_freq] is below [max_freq].  On members
    whose range is reversed, [set_frequency] cannot store the frequency it
    is given: it stores [min_freq] for an argument above [max_freq] and
    [max_freq] for every other argument. *)
Theorem set_frequency_on_reversed_range (f : R) (s : receiver) :
  d_max_freq s < d_min_freq s ->
  let s' := members (set_frequency f) s in
  (f > d_max_freq s -> d_freq s' = d_min_freq s) /\
  (f <= d_max_freq s -> d_freq s' = d_max_freq s) /\
  (d_freq s' = f -> f = d_min_freq s \/ f = d_max_freq s).
Proof.
  intros Hrev. cbv zeta. unfold set_frequency. run_method.
  destruct (Rgtb f (d_max_freq s)) eqn:Hgt;
    [apply Rgtb_true in Hgt | apply Rgtb_false in Hgt].
  - simpl. split; [|split]; intros H; first [lra | left; lra].
  - assert (Hlt : Rltb f (d_min_freq s) = true) by (apply Rltb_true; lra).
    rewrite Hlt. simpl. split; [|split]; intros H; first [lra | right; lra].
Qed.

Lemma set_frequency_on_reversed_range_witness :
  let s := mk_receiver 0 (-1) 1 0 sign_constellation 0 (sqrt 2 / 2) 0 0 0 in
  let s' := members (set_frequency 0) s in
  (0 > d_max_freq s -> d_freq s' = d_min_freq s) /\
  (0 <= d_max_freq s -> d_freq s' = d_max_freq s) /\
  (d_freq s' = 0 -> 0 = d_min_freq s \/ 0 = d_max_freq s).
Proof.
  apply (set_frequency_on_reversed_range 0
           (mk_receiver 0 (-1) 1 0 sign_constellation 0 (sqrt 2 / 2) 0 0 0)).
  simpl. lra.
Defined.
